(** * BiomePruner log tooling: the log-entry segmenter

    A shallow embedding of [MinecraftLogParser.parse_log], which exists in
    three copies:
    - [minecraft_log_parser.py]                        (module [Standalone]),
    - [claude_tooling/scripts/log_parser.py]           (module [Tooling]),
    - [claude_tooling/scripts/run_automated_tests.py]  (module [TestRunner]).

    Python [str] values are sequences of Unicode code points, the two
    regular expressions are given a backtracking semantics with the priority
    order of Python's [re] module, and the [for] loop over [enumerate(lines)]
    is a recursion that threads [self.entries] and [current_entry]. *)

From Stdlib Require Import String Ascii DecimalString.
From Stdlib Require Import List NArith Arith Bool Lia Permutation Sorted.
Import ListNotations.

Set Implicit Arguments.

(** ** Strings *)

(** A code point, and a Python [str]. *)
Definition char := N.
Definition str := list char.

(** Literals of the source, written as Rocq strings of ASCII characters. *)
Definition pystr (s : string) : str :=
  map N_of_ascii (list_ascii_of_string s).
Arguments pystr s%_string.

Definition LBRACKET : char := 91%N.
Definition RBRACKET : char := 93%N.
Definition SLASH : char := 47%N.

(** [str.isspace] on one character, which is also what [str.rstrip()] strips
    and what [\s] matches in a [str] pattern: CPython's
    [_PyUnicode_IsWhitespace]. *)
Definition isspace (c : char) : bool :=
  (((9 <=? c) && (c <=? 13)) || ((28 <=? c) && (c <=? 32))
   || (c =? 133) || (c =? 160) || (c =? 5760)
   || ((8192 <=? c) && (c <=? 8202))
   || (c =? 8232) || (c =? 8233) || (c =? 8239) || (c =? 8287)
   || (c =? 12288))%N.

(** [s.rstrip()]: drop the trailing run of whitespace. *)
Fixpoint rstrip (s : str) : str :=
  match s with
  | [] => []
  | c :: s' =>
      match rstrip s' with
      | [] => if isspace c then [] else [c]
      | r => c :: r
      end
  end.

(** [s.startswith(p)]. *)
Fixpoint startswith (p s : str) : bool :=
  match p, s with
  | [], _ => true
  | _ :: _, [] => false
  | a :: p', b :: s' => (a =? b)%N && startswith p' s'
  end.

(** [p in s]: [p] occurs in [s] as a substring. *)
Fixpoint contains (p s : str) : bool :=
  startswith p s
  || match s with
     | [] => false
     | _ :: s' => contains p s'
     end.

(** ** Regular expressions, as far as the two patterns need them *)

Inductive regex : Type :=
| Empty                              (* the empty pattern *)
| Chr (p : char -> bool)             (* one character: a literal, a class, \s *)
| Cat (r1 r2 : regex)                (* r1 r2 *)
| Alt (r1 r2 : regex)                (* r1|r2, r1 is tried first *)
| Star (p : char -> bool)            (* c*, greedy, c a one-character item *)
| Group (n : nat) (r : regex).       (* the n-th capturing group *)

(** [c+] *)
Definition Plus (p : char -> bool) : regex := Cat (Chr p) (Star p).

(** The captures of a match: the latest binding of a group comes first. *)
Definition groups := list (nat * str).

(** [match.group(n)]: the text of group [n], [None] when it took no part. *)
Fixpoint group (g : groups) (n : nat) : option str :=
  match g with
  | [] => None
  | (k, w) :: g' => if Nat.eqb k n then Some w else group g' n
  end.

(** Greedy repetition: the longest run first, then one character less at a
    time, down to the empty run. Each result is the text left to match. *)
Fixpoint star_run (p : char -> bool) (s : str) (g : groups)
  : list (str * groups) :=
  match s with
  | [] => [([], g)]
  | c :: s' => if p c then star_run p s' g ++ [(s, g)] else [(s, g)]
  end.

(** All the ways [r] matches a prefix of [s], in the order in which the
    backtracking matcher of [re] tries them; each is the text that is left
    together with the captures so far. *)
Fixpoint run (r : regex) (s : str) (g : groups) : list (str * groups) :=
  match r with
  | Empty => [(s, g)]
  | Chr p =>
      match s with
      | c :: s' => if p c then [(s', g)] else []
      | [] => []
      end
  | Cat r1 r2 => flat_map (fun x => run r2 (fst x) (snd x)) (run r1 s g)
  | Alt r1 r2 => run r1 s g ++ run r2 s g
  | Star p => star_run p s g
  | Group n r1 =>
      map (fun x => (fst x, (n, firstn (length s - length (fst x)) s) :: snd x))
          (run r1 s g)
  end.

(** [pattern.match(s)]: the first match anchored at the start of [s]. *)
Definition re_match (r : regex) (s : str) : option groups :=
  option_map snd (hd_error (run r s [])).

(** [pattern.search(s)]: the first position of [s] where the pattern
    matches. *)
Fixpoint re_search (r : regex) (s : str) : option groups :=
  match re_match r s with
  | Some g => Some g
  | None =>
      match s with
      | [] => None
      | _ :: s' => re_search r s'
      end
  end.

(** Truth value of an optional object ([if match:], [bool(...)]). *)
Definition truthy {A} (o : option A) : bool :=
  match o with Some _ => true | None => false end.

(** A literal string of a pattern. *)
Definition lit (s : str) : regex :=
  fold_right (fun c r => Cat (Chr (N.eqb c)) r) Empty s.

Definition not_char (c : char) : char -> bool := fun x => negb (c =? x)%N.

(** ** The header pattern

    [re.compile(r'^\[([^\]]+)\]\s*\[([^\]]+)/(WARN|ERROR|FATAL)\]')].
    The pattern is only used through [match], which anchors it at the start,
    so [^] adds nothing. *)
Definition level_alternatives : regex :=
  Alt (lit (pystr "WARN")) (Alt (lit (pystr "ERROR")) (lit (pystr "FATAL"))).

Definition log_pattern : regex :=
  Cat (Chr (N.eqb LBRACKET))
 (Cat (Group 1 (Plus (not_char RBRACKET)))
 (Cat (Chr (N.eqb RBRACKET))
 (Cat (Star isspace)
 (Cat (Chr (N.eqb LBRACKET))
 (Cat (Group 2 (Plus (not_char RBRACKET)))
 (Cat (Chr (N.eqb SLASH))
 (Cat (Group 3 level_alternatives)
      (Chr (N.eqb RBRACKET))))))))).

(** ** The tag pattern

    [re.compile(r'biomepruner|BiomePruner', re.IGNORECASE)].  Under
    [IGNORECASE] a literal letter [c] of a [str] pattern matches a
    character [x] when the simple lowercase of [x] is the lowercase of [c]
    or one of its listed equivalents ([_ignorecase_fixes] of the compiler of
    [re]).  For the ASCII letters these are: the letter itself in either
    case, and for [i] also U+0130 and U+0131, for [k] U+212A, for [s]
    U+017F. *)
Definition ascii_lower (c : char) : char :=
  (if (65 <=? c) && (c <=? 90) then c + 32 else c)%N.

Definition is_ascii_letter (c : char) : bool :=
  (((65 <=? c) && (c <=? 90)) || ((97 <=? c) && (c <=? 122)))%N.

Definition ignorecase_eqb (c x : char) : bool :=
  if is_ascii_letter c then
    let lo := ascii_lower c in
    ((ascii_lower x =? lo)
     || ((lo =? 105) && ((x =? 304) || (x =? 305)))
     || ((lo =? 107) && (x =? 8490))
     || ((lo =? 115) && (x =? 383)))%N
  else (c =? x)%N.

Definition lit_ignorecase (s : str) : regex :=
  fold_right (fun c r => Cat (Chr (ignorecase_eqb c)) r) Empty s.

Definition biomepruner_pattern : regex :=
  Alt (lit_ignorecase (pystr "biomepruner"))
      (lit_ignorecase (pystr "BiomePruner")).

(** ** Files and exceptions *)

(** What the file system holds at a path: nothing; a path that [stat]
    fails on other than by absence (a name that is too long, a directory
    of the path that may not be searched); something that [open] or
    [readlines] fails on (a directory, a file without read permission); or
    a text file.  The file is opened with [errors='replace'], so every
    byte sequence decodes, to lines that may hold U+FFFD. *)
Inductive file :=
| Missing
| Inaccessible
| Unreadable
| Readable (lines : list str).

Definition filesystem := str -> file.

Inductive exn := FileNotFoundError | OSError.

Inductive exc (A : Type) :=
| Ret (a : A)
| Raise (e : exn).
Arguments Ret {A} a.
Arguments Raise {A} e.

(** [try: body / except Exception: handler] *)
Definition try_except {A B} (body : exc A) (handler : exn -> exc B)
    (rest : A -> exc B) : exc B :=
  match body with
  | Ret a => rest a
  | Raise e => handler e
  end.

(** A call outside every [try]: what it raises leaves the caller too. *)
Definition bind {A B} (m : exc A) (f : A -> exc B) : exc B :=
  match m with
  | Ret a => f a
  | Raise e => Raise e
  end.

(** [Path.exists()]: [stat] at the path; an [OSError] of absence gives
    [False], any other [OSError] is raised again. *)
Definition path_exists (fs : filesystem) (p : str) : exc bool :=
  match fs p with
  | Missing => Ret false
  | Inaccessible => Raise OSError
  | Unreadable | Readable _ => Ret true
  end.

(** [with open(p, 'r', encoding='utf-8', errors='replace') as f:
       lines = f.readlines()] *)
Definition open_readlines (fs : filesystem) (p : str) : exc (list str) :=
  match fs p with
  | Missing => Raise FileNotFoundError
  | Inaccessible | Unreadable => Raise OSError
  | Readable lines => Ret lines
  end.

(** The two literals of the boundary test. *)
Definition OPEN : str := pystr "[".
Definition CLOSE_OPEN : str := pystr "] [".

(** ** [minecraft_log_parser.py] *)
Module Standalone.

(** The dict built at a header line. *)
Record entry := {
  line_number : nat;
  timestamp : option str;
  category : option str;
  level : option str;
  content : list str
}.

(** The parser object: [self.log_path], as the text of the [Path], and
    [self.entries]. *)
Record parser := {
  log_path : str;
  entries : list entry
}.

(** [__init__]; [path] is the text of [Path(log_path)], which is what the
    object keeps. *)
Definition init (path : str) : parser :=
  {| log_path := path; entries := [] |}.

(** [current_entry['content'].append(x)] *)
Definition content_append (e : entry) (x : str) : entry :=
  {| line_number := line_number e;
     timestamp := timestamp e;
     category := category e;
     level := level e;
     content := content e ++ [x] |}.

(** [self.entries.append(current_entry)] under [if current_entry:] *)
Definition save (es : list entry) (cur : option entry) : list entry :=
  match cur with
  | Some e => es ++ [e]
  | None => es
  end.

(** One turn of the loop, for the line at index [i]: the new
    [self.entries] and the new [current_entry]. *)
Definition loop_body (i : nat) (line : str)
    (es : list entry) (cur : option entry) : list entry * option entry :=
  match re_match log_pattern line with
  | Some m =>
      (save es cur,
       Some {| line_number := i + 1;
               timestamp := group m 1;
               category := group m 2;
               level := group m 3;
               content := [rstrip line] |})
  | None =>
      match cur with
      | Some e =>
          if startswith OPEN line && contains CLOSE_OPEN line
          then (es ++ [e], None)
          else (es, Some (content_append e (rstrip line)))
      | None => (es, None)
      end
  end.

(** [for i, line in enumerate(lines): ...], from index [i] on. *)
Fixpoint for_loop (i : nat) (lines : list str)
    (es : list entry) (cur : option entry) : list entry * option entry :=
  match lines with
  | [] => (es, cur)
  | line :: rest =>
      let st := loop_body i line es cur in
      for_loop (S i) rest (fst st) (snd st)
  end.

(** The loop and the [if current_entry:] after it, on the lines read. *)
Definition parse_lines (lines : list str) (es : list entry) : list entry :=
  let st := for_loop 0 lines es None in
  save (fst st) (snd st).

(** [parse_log]: the value returned and the parser object afterwards. *)
Definition parse_log (fs : filesystem) (self : parser)
  : exc (bool * parser) :=
  bind (path_exists fs (log_path self)) (fun found =>
  if negb found then Ret (false, self)
  else
    try_except (open_readlines fs (log_path self))
      (fun _ => Ret (false, self))
      (fun lines =>
         Ret (true, {| log_path := log_path self;
                       entries := parse_lines lines (entries self) |}))).

(** The entries a new parser object holds after [parse_log] has read
    [lines]. *)
Definition segment (lines : list str) : list entry :=
  parse_lines lines [].

End Standalone.

(** ** [claude_tooling/scripts/run_automated_tests.py] *)
Module TestRunner.

Record entry := {
  line_number : nat;
  timestamp : option str;
  category : option str;
  level : option str;
  content : list str
}.

Record parser := {
  log_path : str;
  entries : list entry
}.

Definition init (path : str) : parser :=
  {| log_path := path; entries := [] |}.

Definition content_append (e : entry) (x : str) : entry :=
  {| line_number := line_number e;
     timestamp := timestamp e;
     category := category e;
     level := level e;
     content := content e ++ [x] |}.

Definition save (es : list entry) (cur : option entry) : list entry :=
  match cur with
  | Some e => es ++ [e]
  | None => es
  end.

Definition loop_body (i : nat) (line : str)
    (es : list entry) (cur : option entry) : list entry * option entry :=
  match re_match log_pattern line with
  | Some m =>
      (save es cur,
       Some {| line_number := i + 1;
               timestamp := group m 1;
               category := group m 2;
               level := group m 3;
               content := [rstrip line] |})
  | None =>
      match cur with
      | Some e =>
          if startswith OPEN line && contains CLOSE_OPEN line
          then (es ++ [e], None)
          else (es, Some (content_append e (rstrip line)))
      | None => (es, None)
      end
  end.

Fixpoint for_loop (i : nat) (lines : list str)
    (es : list entry) (cur : option entry) : list entry * option entry :=
  match lines with
  | [] => (es, cur)
  | line :: rest =>
      let st := loop_body i line es cur in
      for_loop (S i) rest (fst st) (snd st)
  end.

Definition parse_lines (lines : list str) (es : list entry) : list entry :=
  let st := for_loop 0 lines es None in
  save (fst st) (snd st).

Definition parse_log (fs : filesystem) (self : parser)
  : exc (bool * parser) :=
  bind (path_exists fs (log_path self)) (fun found =>
  if negb found then Ret (false, self)
  else
    try_except (open_readlines fs (log_path self))
      (fun _ => Ret (false, self))
      (fun lines =>
         Ret (true, {| log_path := log_path self;
                       entries := parse_lines lines (entries self) |}))).

Definition segment (lines : list str) : list entry :=
  parse_lines lines [].

End TestRunner.

(** ** [claude_tooling/scripts/log_parser.py] *)
Module Tooling.

Record entry := {
  line_number : nat;
  timestamp : option str;
  thread_category : option str;
  level : option str;
  content : list str;
  is_biomepruner : bool
}.

(** An element of [self.biomepruner_messages]. *)
Record message := {
  msg_line_number : nat;
  msg_content : str
}.

(** [self.log_name], fixed by [__init__], only enters the text printed. *)
Record parser := {
  log_path : str;
  entries : list entry;
  biomepruner_messages : list message
}.

Definition init (path : str) : parser :=
  {| log_path := path; entries := []; biomepruner_messages := [] |}.

(** The locals and fields the loop updates. *)
Record state := {
  st_entries : list entry;
  st_messages : list message;
  st_current : option entry
}.

Definition save (es : list entry) (cur : option entry) : list entry :=
  match cur with
  | Some e => es ++ [e]
  | None => es
  end.

(** [current_entry['content'].append(x)], then
    [if biomepruner_pattern.search(x): current_entry['is_biomepruner'] = True] *)
Definition content_append (e : entry) (x : str) : entry :=
  {| line_number := line_number e;
     timestamp := timestamp e;
     thread_category := thread_category e;
     level := level e;
     content := content e ++ [x];
     is_biomepruner :=
       if truthy (re_search biomepruner_pattern x) then true
       else is_biomepruner e |}.

Definition loop_body (i : nat) (line : str) (st : state) : state :=
  let line_number := i + 1 in
  let line_stripped := rstrip line in
  let msgs :=
    if truthy (re_search biomepruner_pattern line_stripped)
    then st_messages st ++ [{| msg_line_number := line_number;
                               msg_content := line_stripped |}]
    else st_messages st in
  match re_match log_pattern line_stripped with
  | Some m =>
      {| st_entries := save (st_entries st) (st_current st);
         st_messages := msgs;
         st_current :=
           Some {| line_number := line_number;
                   timestamp := group m 1;
                   thread_category := group m 2;
                   level := group m 3;
                   content := [line_stripped];
                   is_biomepruner :=
                     truthy (re_search biomepruner_pattern line_stripped) |}
      |}
  | None =>
      match st_current st with
      | Some e =>
          if startswith OPEN line_stripped
             && contains CLOSE_OPEN line_stripped
          then {| st_entries := st_entries st ++ [e];
                  st_messages := msgs;
                  st_current := None |}
          else {| st_entries := st_entries st;
                  st_messages := msgs;
                  st_current := Some (content_append e line_stripped) |}
      | None => {| st_entries := st_entries st;
                   st_messages := msgs;
                   st_current := None |}
      end
  end.

Fixpoint for_loop (i : nat) (lines : list str) (st : state) : state :=
  match lines with
  | [] => st
  | line :: rest => for_loop (S i) rest (loop_body i line st)
  end.

(** The loop and the [if current_entry:] after it: the new [self.entries]
    and [self.biomepruner_messages]. *)
Definition parse_lines (lines : list str)
    (es : list entry) (ms : list message) : list entry * list message :=
  let st := for_loop 0 lines
              {| st_entries := es; st_messages := ms; st_current := None |} in
  (save (st_entries st) (st_current st), st_messages st).

Definition parse_log (fs : filesystem) (self : parser)
  : exc (bool * parser) :=
  bind (path_exists fs (log_path self)) (fun found =>
  if negb found then Ret (false, self)
  else
    try_except (open_readlines fs (log_path self))
      (fun _ => Ret (false, self))
      (fun lines =>
         let r := parse_lines lines (entries self)
                    (biomepruner_messages self) in
         Ret (true, {| log_path := log_path self;
                       entries := fst r;
                       biomepruner_messages := snd r |}))).

Definition segment (lines : list str) : list entry :=
  fst (parse_lines lines [] []).

(** [self.biomepruner_messages] of a new parser object after
    [parse_log]. *)
Definition tagged_lines (lines : list str) : list message :=
  snd (parse_lines lines [] []).

End Tooling.

(** * Notions used to state and prove the properties *)

(** ** Texts and patterns *)

(** The last character of [p] is not whitespace. *)
Definition ends_nonspace (p : str) : Prop :=
  exists w c, p = w ++ [c] /\ isspace c = false.

(** [matches r w g g'] : pattern [r] matches exactly the text [w], turning
    the captures [g] into [g']. *)
Inductive matches : regex -> str -> groups -> groups -> Prop :=
| M_Empty g : matches Empty [] g g
| M_Chr p c g : p c = true -> matches (Chr p) [c] g g
| M_Cat r1 r2 w1 w2 g g1 g2 :
    matches r1 w1 g g1 -> matches r2 w2 g1 g2 ->
    matches (Cat r1 r2) (w1 ++ w2) g g2
| M_AltL r1 r2 w g g' : matches r1 w g g' -> matches (Alt r1 r2) w g g'
| M_AltR r1 r2 w g g' : matches r2 w g g' -> matches (Alt r1 r2) w g g'
| M_Star p w g : Forall (fun c => p c = true) w -> matches (Star p) w g g
| M_Group n r w g g' :
    matches r w g g' -> matches (Group n r) w g ((n, w) :: g').

#[local] Hint Constructors matches : core.

(** A match of [s] by [r]: [r] matches a prefix of [s]. *)
Definition prefix_match (r : regex) (s : str) (g : groups) : Prop :=
  exists w s', s = w ++ s' /\ matches r w [] g.

(** ** The shape of a header line *)

Definition no_rbracket (w : str) : Prop :=
  Forall (fun c => not_char RBRACKET c = true) w.

Definition all_space (w : str) : Prop :=
  Forall (fun c => isspace c = true) w.

Definition is_level (lvl : str) : Prop :=
  lvl = pystr "WARN" \/ lvl = pystr "ERROR" \/ lvl = pystr "FATAL".

(** The text of a header: [\[ts\]], whitespace, [\[cat/lvl\]]. *)
Definition header_text (ts ws cat lvl : str) : str :=
  [LBRACKET] ++ ts ++ [RBRACKET] ++ ws
  ++ [LBRACKET] ++ cat ++ [SLASH] ++ lvl ++ [RBRACKET].

(** [line] starts with a bracketed span around the timestamp [ts], and
    after whitespace only (possibly none) comes a second bracketed span
    that holds the category [cat], a slash, and one of the three levels. *)
Definition header_shape (line ts cat lvl : str) : Prop :=
  exists ws rest,
    line = header_text ts ws cat lvl ++ rest
    /\ ts <> [] /\ no_rbracket ts
    /\ all_space ws
    /\ cat <> [] /\ no_rbracket cat
    /\ is_level lvl.

Definition header_groups (ts cat lvl : str) : groups :=
  [(3, lvl); (2, cat); (1, ts)].

Definition no_slash (w : str) : Prop :=
  Forall (fun c => not_char SLASH c = true) w.

(** ** The tests of the loop *)

(** [line.startswith('\[') and '\] \[' in line], the test that ends an entry
    at a line which is not a header. *)
Definition is_boundary (line : str) : bool :=
  startswith OPEN line && contains CLOSE_OPEN line.

(** Replace the literals of the source by their code points. *)
Ltac eval_literals :=
  repeat match goal with
         | |- context [pystr ?s] =>
             let t := eval vm_compute in (pystr s) in
             change (pystr s) with t
         | H : context [pystr ?s] |- _ =>
             let t := eval vm_compute in (pystr s) in
             change (pystr s) with t in H
         end.

Ltac invert_Forall2 :=
  repeat match goal with
         | H : Forall2 _ (_ :: _) _ |- _ => inversion H; subst; clear H
         | H : Forall2 _ [] _ |- _ => inversion H; subst; clear H
         end.

(** [w] is [p] up to the case of its letters. *)
Definition ignorecase_equal (p w : str) : Prop :=
  Forall2 (fun c x => ignorecase_eqb c x = true) p w.

Definition TAG : str := pystr "biomepruner".

(** [bool(biomepruner_pattern.search(line))] *)
Definition tag_matches (line : str) : bool :=
  truthy (re_search biomepruner_pattern line).

(** [line] contains the tag, whatever the case of its letters. *)
Definition contains_ignorecase (p line : str) : Prop :=
  exists a w b, line = a ++ w ++ b /\ ignorecase_equal p w.

(** [bool(log_pattern.match(line))] *)
Definition is_header (line : str) : bool :=
  truthy (re_match log_pattern line).

(** A line that an open entry takes in: no header, no boundary. *)
Definition continues (line : str) : bool :=
  negb (is_header line) && negb (is_boundary line).

(** The lines an entry takes in when it is open before [lines]. *)
Fixpoint continuation_run (lines : list str) : list str :=
  match lines with
  | [] => []
  | l :: rest => if continues l then l :: continuation_run rest else []
  end.

(** ** Entries and the lines they hold *)

(** Line [p], counted from 1, is one of the lines that entry [e] holds:
    the entry starts at its [line_number] and holds as many consecutive
    lines as its content is long. *)
Definition holds_line (e : Standalone.entry) (p : nat) : Prop :=
  Standalone.line_number e <= p
  < Standalone.line_number e + length (Standalone.content e).

(** The entries come in the order of the file, each one starting after
    line [lo] and after the last line of the entry before it. *)
Fixpoint ordered_from (lo : nat) (es : list Standalone.entry) : Prop :=
  match es with
  | [] => True
  | e :: es' =>
      lo < Standalone.line_number e
      /\ ordered_from (Standalone.line_number e - 1
                       + length (Standalone.content e)) es'
  end.

(** [a] is [b] with some elements left out. *)
Inductive subsequence {A : Type} : list A -> list A -> Prop :=
| sub_nil : subsequence [] []
| sub_keep x a b : subsequence a b -> subsequence (x :: a) (x :: b)
| sub_drop x a b : subsequence a b -> subsequence a (x :: b).

(** ** The result of the loop, header line by header line *)
Module StandaloneAux.
Import Standalone.

(** The entry opened at index [i] by [line], with its captures [m], once
    it has taken in the lines [ks]. *)
Definition opened (i : nat) (line : str) (m : groups) (ks : list str)
  : entry :=
  {| line_number := i + 1;
     timestamp := group m 1;
     category := group m 2;
     level := group m 3;
     content := rstrip line :: map rstrip ks |}.

Definition extend (e : entry) (ks : list str) : entry :=
  {| line_number := line_number e;
     timestamp := timestamp e;
     category := category e;
     level := level e;
     content := content e ++ map rstrip ks |}.

(** One entry for each header line: the line and the run of lines after
    it that continue it. *)
Fixpoint entries_from (i : nat) (lines : list str) : list entry :=
  match lines with
  | [] => []
  | l :: rest =>
      match re_match log_pattern l with
      | Some m =>
          opened i l m (continuation_run rest) :: entries_from (S i) rest
      | None => entries_from (S i) rest
      end
  end.

End StandaloneAux.

(** ** From the entries of the other copies to those of the first *)
Module TestRunnerAux.
Import TestRunner.

Definition to_standalone (e : entry) : Standalone.entry :=
  {| Standalone.line_number := line_number e;
     Standalone.timestamp := timestamp e;
     Standalone.category := category e;
     Standalone.level := level e;
     Standalone.content := content e |}.

End TestRunnerAux.

Module ToolingAux.
Import Tooling.

(** An entry without its tag flag. *)
Definition forget (e : entry) : Standalone.entry :=
  {| Standalone.line_number := line_number e;
     Standalone.timestamp := timestamp e;
     Standalone.category := thread_category e;
     Standalone.level := level e;
     Standalone.content := content e |}.

(** The flag of an entry says whether the tag occurs in its content. *)
Definition flag_ok (e : entry) : Prop :=
  is_biomepruner e = existsb tag_matches (content e).

Definition flags_ok (st : state) : Prop :=
  Forall flag_ok (st_entries st)
  /\ forall e, st_current st = Some e -> flag_ok e.

(** The tag scan on its own: the lines from index [i] on that contain
    the tag. *)
Fixpoint scan (i : nat) (lines : list str) : list message :=
  match lines with
  | [] => []
  | l :: rest =>
      if tag_matches (rstrip l)
      then {| msg_line_number := i + 1; msg_content := rstrip l |}
           :: scan (S i) rest
      else scan (S i) rest
  end.

End ToolingAux.

(** ** Statements and sample inputs *)

(** Line [n], counted from 1, of [lines] has the header shape. *)
Definition header_at (lines : list str) (n : nat) : Prop :=
  exists l ts cat lvl,
    1 <= n /\ nth_error lines (n - 1) = Some l /\ header_shape l ts cat lvl.

Definition info_then_warn : list str :=
  [pystr "[12:00:00] [Server/INFO] up"; pystr "[12:00:05] [Server/WARN] test"].

Definition warn_entry : Standalone.entry :=
  {| Standalone.line_number := 1;
     Standalone.timestamp := Some (pystr "12:00:00");
     Standalone.category := Some (pystr "Server");
     Standalone.level := Some (pystr "WARN");
     Standalone.content := [pystr "[12:00:00] [Server/WARN] test"] |}.

Definition one_warning : filesystem :=
  fun _ => Readable [pystr "[12:00:00] [Server/WARN] test"].



(** The fields that the three copies share. *)
Definition fields : Type :=
  nat * option str * option str * option str * list str.

Definition standalone_fields (e : Standalone.entry) : fields :=
  (Standalone.line_number e, Standalone.timestamp e, Standalone.category e,
   Standalone.level e, Standalone.content e).

Definition tooling_fields (e : Tooling.entry) : fields :=
  (Tooling.line_number e, Tooling.timestamp e, Tooling.thread_category e,
   Tooling.level e, Tooling.content e).

Definition testrunner_fields (e : TestRunner.entry) : fields :=
  (TestRunner.line_number e, TestRunner.timestamp e, TestRunner.category e,
   TestRunner.level e, TestRunner.content e).

Definition tagged_log : list str :=
  [pystr "[t] [A/WARN] x"; pystr "  at BiomePruner.load ";
   pystr "[t] [A/INFO] biomepruner"].

Definition tagged_entry : Tooling.entry :=
  {| Tooling.line_number := 1;
     Tooling.timestamp := Some (pystr "t");
     Tooling.thread_category := Some (pystr "A");
     Tooling.level := Some (pystr "WARN");
     Tooling.content := [pystr "[t] [A/WARN] x"; pystr "  at BiomePruner.load"];
     Tooling.is_biomepruner := true |}.

(** * The functions around [parse_log] *)

(** ** Formatting and joining *)

Definition NEWLINE : char := 10%N.

(** [a == b] on two [str]. *)
Fixpoint str_eqb (a b : str) : bool :=
  match a, b with
  | [], [] => true
  | x :: a', y :: b' => (x =? y)%N && str_eqb a' b'
  | _, _ => false
  end.

(** [a < b] on two [str]: code point by code point, a proper prefix
    first. *)
Fixpoint str_ltb (a b : str) : bool :=
  match a, b with
  | _, [] => false
  | [], _ :: _ => true
  | x :: a', y :: b' =>
      if (x <? y)%N then true
      else if (y <? x)%N then false
      else str_ltb a' b'
  end.

(** [sep.join(xs)] *)
Fixpoint join (sep : str) (xs : list str) : str :=
  match xs with
  | [] => []
  | [x] => x
  | x :: rest => x ++ sep ++ join sep rest
  end.

(** [s.split('\n')] *)
Fixpoint split_lines (s : str) : list str :=
  match s with
  | [] => [[]]
  | c :: s' =>
      if (c =? NEWLINE)%N then [] :: split_lines s'
      else match split_lines s' with
           | x :: xs => (c :: x) :: xs
           | [] => [[c]]
           end
  end.

(** An [int] that is not negative in an f-string: its decimal digits. *)
Definition format_int (n : nat) : str :=
  pystr (NilEmpty.string_of_uint (Nat.to_uint n)).

(** A [str] or [None] in an f-string. *)
Definition format_optional (o : option str) : str :=
  match o with
  | Some s => s
  | None => pystr "None"
  end.

(** Comparisons of string literals, evaluated. *)
Ltac eval_str_eqb :=
  repeat match goal with
         | |- context [str_eqb (pystr ?a) (pystr ?b)] =>
             let v := eval vm_compute in (str_eqb (pystr a) (pystr b)) in
             change (str_eqb (pystr a) (pystr b)) with v
         end.

(** A [dict] with [str] keys: the keys in the order of insertion, each
    once. *)
Definition dict (V : Type) : Type := list (str * V).

(** [d.get(k)] *)
Fixpoint dict_get {V} (k : str) (d : dict V) : option V :=
  match d with
  | [] => None
  | (k', v) :: d' => if str_eqb k' k then Some v else dict_get k d'
  end.

(** [k in d] *)
Definition dict_contains {V} (k : str) (d : dict V) : bool :=
  truthy (dict_get k d).

(** [d\[k\] = v]: a key that is there keeps its place. *)
Fixpoint dict_set {V} (k : str) (v : V) (d : dict V) : dict V :=
  match d with
  | [] => [(k, v)]
  | (k', v') :: d' =>
      if str_eqb k' k then (k', v) :: d' else (k', v') :: dict_set k v d'
  end.

(** A line as [readlines] gives it: no line feed but at its end. *)
Definition readline_shaped (l : str) : Prop :=
  exists body,
    ~ In NEWLINE body /\ (l = body \/ l = body ++ [NEWLINE]).

(** ** [minecraft_log_parser.py]: [generate_report] *)
Module StandaloneReport.
Import Standalone.

(** The strings one entry adds to [report]. *)
Definition entry_section (e : entry) : list str :=
  [pystr "## Line " ++ format_int (line_number e) ++ pystr ": "
   ++ format_optional (level e);
   pystr "**Time:** " ++ format_optional (timestamp e);
   pystr "**Category:** " ++ format_optional (category e) ++ [NEWLINE];
   pystr "```"]
  ++ content e
  ++ [pystr "```" ++ [NEWLINE]].

(** The list [report] before it is joined; [log_path self] is the text
    that the f-string gives for [self.log_path]. *)
Definition report_items (self : parser) : list str :=
  [pystr "# Minecraft Log Errors and Warnings" ++ [NEWLINE];
   pystr "**Log File:** `" ++ log_path self ++ pystr "`" ++ [NEWLINE];
   pystr "**Total Issues:** " ++ format_int (length (entries self))
   ++ [NEWLINE];
   pystr "---" ++ [NEWLINE]]
  ++ flat_map entry_section (entries self).

Definition generate_report (self : parser) : str :=
  match entries self with
  | [] => pystr "No warnings or errors found in the log file." ++ [NEWLINE]
  | _ :: _ => join [NEWLINE] (report_items self)
  end.

End StandaloneReport.

(** ** [run_automated_tests.py]: [MinecraftLogParser.generate_report] *)
Module TestRunnerReport.
Import TestRunner.

Definition entry_section (e : entry) : list str :=
  [pystr "## Line " ++ format_int (line_number e) ++ pystr ": "
   ++ format_optional (level e);
   pystr "**Time:** " ++ format_optional (timestamp e);
   pystr "**Category:** " ++ format_optional (category e) ++ [NEWLINE];
   pystr "```"]
  ++ content e
  ++ [pystr "```" ++ [NEWLINE]].

Definition report_items (self : parser) (log_name : str) : list str :=
  [pystr "# Minecraft Log Errors and Warnings (" ++ log_name ++ pystr ")"
   ++ [NEWLINE];
   pystr "**Log File:** `" ++ log_path self ++ pystr "`" ++ [NEWLINE];
   pystr "**Total Issues:** " ++ format_int (length (entries self))
   ++ [NEWLINE];
   pystr "---" ++ [NEWLINE]]
  ++ flat_map entry_section (entries self).

Definition generate_report (self : parser) (log_name : str) : str :=
  match entries self with
  | [] =>
      pystr "# Minecraft Log Errors and Warnings (" ++ log_name ++ pystr ")"
      ++ [NEWLINE; NEWLINE]
      ++ pystr "No warnings or errors found in the log file." ++ [NEWLINE]
  | _ :: _ => join [NEWLINE] (report_items self log_name)
  end.

End TestRunnerReport.

(** ** [log_parser.py]: the counts of [generate_errors_report] and
    [export_json] *)
Module Reports.
Import Tooling.

(** [level_counts]: a dict whose keys are the values of [entry\['level'\]],
    a [str] or [None]. *)
Definition counts : Type := list (option str * nat).

Definition key_eqb (a b : option str) : bool :=
  match a, b with
  | Some x, Some y => str_eqb x y
  | None, None => true
  | _, _ => false
  end.

(** [level_counts.get(k, default)] *)
Fixpoint counts_get (d : counts) (k : option str) (default : nat) : nat :=
  match d with
  | [] => default
  | (k', v) :: d' => if key_eqb k' k then v else counts_get d' k default
  end.

(** [level_counts\[k\] = v] *)
Fixpoint counts_set (d : counts) (k : option str) (v : nat) : counts :=
  match d with
  | [] => [(k, v)]
  | (k', v') :: d' =>
      if key_eqb k' k then (k', v) :: d' else (k', v') :: counts_set d' k v
  end.

(** One turn of the counting loop of [generate_errors_report]:
    [level_counts] and [biomepruner_count]. *)
Definition count_step (acc : counts * nat) (e : entry) : counts * nat :=
  let level := Tooling.level e in
  (counts_set (fst acc) level (counts_get (fst acc) level 0 + 1),
   if is_biomepruner e then snd acc + 1 else snd acc).

Definition count_levels (es : list entry) : counts * nat :=
  fold_left count_step es ([], 0).

(** [a < b] on two items [(level, count)] of the dict: the first places
    that differ decide; [None] stands for the [TypeError] of a comparison
    of [None] with a [str]. *)
Definition item_lt (a b : option str * nat) : option bool :=
  if key_eqb (fst a) (fst b) then Some (snd a <? snd b)
  else match fst a, fst b with
       | Some x, Some y => Some (str_ltb x y)
       | _, _ => None
       end.

(** [sorted(level_counts.items())]: ascending and stable; [None] when a
    comparison raises. *)
Fixpoint insert_item (x : option str * nat) (l : counts) : option counts :=
  match l with
  | [] => Some [x]
  | y :: l' =>
      match item_lt x y with
      | None => None
      | Some true => Some (x :: y :: l')
      | Some false => option_map (cons y) (insert_item x l')
      end
  end.

Definition sorted_items (d : counts) : option counts :=
  fold_left (fun acc x =>
               match acc with
               | Some l => insert_item x l
               | None => None
               end) d (Some []).

(** The text after [**Breakdown:**]. *)
Definition breakdown (items : counts) : str :=
  join (pystr ", ")
    (map (fun lc => format_optional (fst lc) ++ pystr ": "
                    ++ format_int (snd lc)) items).

(** [sum(1 for entry in self.entries if entry\['level'\] == level)] *)
Definition level_is (level : str) (e : entry) : bool :=
  key_eqb (Tooling.level e) (Some level).

Record summary_t := {
  total_errors_warnings : nat;
  total_biomepruner_messages : nat;
  biomepruner_errors_warnings : nat;
  level_breakdown : dict nat
}.

Record json_export := {
  log_file : str;
  log_name : str;
  parsed_at : str;
  error_entries : list entry;
  biomepruner_messages : list message;
  summary : summary_t
}.

(** [export_json]; [name] is [self.log_name], which [__init__] sets, and
    [now] is [datetime.now().isoformat()]. *)
Definition export_json (name now : str) (self : parser) : json_export :=
  {| log_file := log_path self;
     log_name := name;
     parsed_at := now;
     error_entries := entries self;
     biomepruner_messages := Tooling.biomepruner_messages self;
     summary :=
       {| total_errors_warnings := length (entries self);
          total_biomepruner_messages :=
            length (Tooling.biomepruner_messages self);
          biomepruner_errors_warnings :=
            length (filter is_biomepruner (entries self));
          level_breakdown :=
            map (fun level =>
                   (level, length (filter (level_is level) (entries self))))
                [pystr "WARN"; pystr "ERROR"; pystr "FATAL"] |} |}.

(** [generate_errors_report]; [name] is [self.log_name], [now] the text
    of [datetime.now().strftime(...)], and [None] the [TypeError] of
    [sorted]. *)
Definition BIOMEPRUNER_MARKER : str :=
  pystr " " ++ [128295%N] ++ pystr " **BiomePruner**".

Definition errors_entry_section (e : entry) : list str :=
  [pystr "## Line " ++ format_int (line_number e) ++ pystr ": "
   ++ format_optional (Tooling.level e)
   ++ (if is_biomepruner e then BIOMEPRUNER_MARKER else []);
   pystr "**Time:** " ++ format_optional (timestamp e);
   pystr "**Thread/Category:** " ++ format_optional (thread_category e)
   ++ [NEWLINE];
   pystr "```"]
  ++ content e
  ++ [pystr "```" ++ [NEWLINE]].

Definition errors_report_items (name now : str) (self : parser)
    (items : counts) (biomepruner_count : nat) : list str :=
  [pystr "# Minecraft Log Errors and Warnings (" ++ name ++ pystr ")"
   ++ [NEWLINE];
   pystr "**Log File:** `" ++ log_path self ++ pystr "`";
   pystr "**Parsed at:** " ++ now;
   pystr "**Total Issues:** " ++ format_int (length (entries self));
   pystr "**Breakdown:** " ++ breakdown items;
   pystr "**BiomePruner Related:** " ++ format_int biomepruner_count;
   [NEWLINE] ++ pystr "---" ++ [NEWLINE]]
  ++ flat_map errors_entry_section (entries self).

Definition generate_errors_report (name now : str) (self : parser)
  : option str :=
  match entries self with
  | [] =>
      Some (pystr "# Minecraft Log Errors and Warnings (" ++ name
            ++ pystr ")" ++ [NEWLINE; NEWLINE]
            ++ pystr "No warnings, errors, or fatal errors found in the log file."
            ++ [NEWLINE])
  | _ :: _ =>
      let c := count_levels (entries self) in
      match sorted_items (fst c) with
      | None => None
      | Some items =>
          Some (join [NEWLINE]
                  (errors_report_items name now self items (snd c)))
      end
  end.

(** [generate_biomepruner_report] *)
Definition message_section (msg : message) : list str :=
  [pystr "**Line " ++ format_int (msg_line_number msg) ++ pystr ":**";
   pystr "```";
   msg_content msg;
   pystr "```" ++ [NEWLINE]].

Definition biomepruner_report_items (name now : str) (self : parser)
  : list str :=
  [pystr "# BiomePruner Messages (" ++ name ++ pystr ")" ++ [NEWLINE];
   pystr "**Log File:** `" ++ log_path self ++ pystr "`";
   pystr "**Parsed at:** " ++ now;
   pystr "**Total Messages:** "
   ++ format_int (length (Tooling.biomepruner_messages self));
   [NEWLINE] ++ pystr "---" ++ [NEWLINE]]
  ++ flat_map message_section (Tooling.biomepruner_messages self).

Definition generate_biomepruner_report (name now : str) (self : parser)
  : str :=
  match Tooling.biomepruner_messages self with
  | [] =>
      pystr "# BiomePruner Messages (" ++ name ++ pystr ")"
      ++ [NEWLINE; NEWLINE]
      ++ pystr "No BiomePruner-related messages found in the log file."
      ++ [NEWLINE]
  | _ :: _ => join [NEWLINE] (biomepruner_report_items name now self)
  end.

End Reports.

(** ** [run_automated_tests.py]: [AutomatedTestRunner] *)
Module Runner.

(** *** The configuration file *)

(** [CONFIG_FILE] on disk: its text as [read()] returns it, [None] when
    there is no file. *)
Record config_file := {
  config_text : option str
}.

(** What one [with open(CONFIG_FILE, 'w') as f:] block comes to, which
    the environment decides anew at every block: the whole text is
    written; [open] raises, and the file is as it was; or [open] empties
    the file and the write raises, and the file holds [torn]. *)
Inductive write_outcome :=
| Written
| OpenRaises
| WriteRaises (torn : str).

(** The fields of the runner that the configuration functions use. *)
Record runner := {
  config_backup : option str;
  test_mode : str
}.

(** [__init__] *)
Definition init (mode : str) : runner :=
  {| config_backup := None; test_mode := mode |}.

(** [with open(CONFIG_FILE, 'r') as f: f.read()]: [None] when it raises;
    [readable] says whether the environment lets this read through. *)
Definition read_config (readable : bool) (w : config_file) : option str :=
  if readable then config_text w else None.

(** [with open(CONFIG_FILE, 'w') as f: body] inside [try]: whether it went
    through, and the file afterwards.  [body] is the text that the block
    writes, [None] when the block raises before it writes, with the file
    opened and empty. *)
Definition write_config (o : write_outcome) (w : config_file)
    (body : option str) : bool * config_file :=
  match o, body with
  | OpenRaises, _ => (false, w)
  | _, None => (false, {| config_text := Some [] |})
  | Written, Some text => (true, {| config_text := Some text |})
  | WriteRaises torn, Some _ => (false, {| config_text := Some torn |})
  end.

Definition backup_config (readable : bool) (w : config_file)
    (self : runner) : bool * runner :=
  match read_config readable w with
  | Some text =>
      (true, {| config_backup := Some text; test_mode := test_mode self |})
  | None => (false, self)
  end.

Definition restore_config (o : write_outcome) (w : config_file)
    (self : runner) : bool * config_file :=
  match config_backup self with
  | None => (true, w)
  | Some text => write_config o w (Some text)
  end.

Section Toml.

(** The values of a TOML document that are neither booleans nor tables;
    the code never looks into them. *)
Variable other : Type.

#[warnings="-register-all"]
Inductive value :=
| VBool (b : bool)
| VOther (a : other)
| VTable (t : list (str * value)).

(** [toml.load], [None] when it raises, and the text that [toml.dump]
    makes of the document before it writes it, [None] when that raises. *)
Variable toml_load : str -> option (dict value).
Variable toml_dump : dict value -> option str.

(** The assignments [config\['testing'\]\[key\] = flag], in the order of the
    source. *)
Definition testing_assignments (mode : str) : list (str * bool) :=
  [(pystr "enabled", true);
   (pystr "automatedTestingEnabled", true);
   (pystr "debug", true);
   (pystr "debugMessages", true)]
  ++ (if str_eqb mode (pystr "biome") then
        [(pystr "biomeTestsEnabled", true);
         (pystr "performanceTestsEnabled", false);
         (pystr "performanceLogging", false)]
      else if str_eqb mode (pystr "performance") then
        [(pystr "biomeTestsEnabled", false);
         (pystr "performanceTestsEnabled", true);
         (pystr "performanceLogging", true)]
      else if str_eqb mode (pystr "biome+performance") then
        [(pystr "biomeTestsEnabled", true);
         (pystr "performanceTestsEnabled", true);
         (pystr "performanceLogging", true)]
      else
        [(pystr "biomeTestsEnabled", true);
         (pystr "performanceTestsEnabled", true);
         (pystr "performanceLogging", true)]).

Definition assign (t : dict value) (kv : str * bool) : dict value :=
  dict_set (fst kv) (VBool (snd kv)) t.

(** What [enable_automated_testing] does to the loaded [config]; [None]
    when [config\['testing'\]] is no table, so that the first assignment
    into it raises. *)
Definition enable_testing (mode : str) (config : dict value)
  : option (dict value) :=
  let config :=
    if dict_contains (pystr "general") config then config
    else dict_set (pystr "general") (VTable []) config in
  let config :=
    if dict_contains (pystr "testing") config then config
    else dict_set (pystr "testing") (VTable []) config in
  match dict_get (pystr "testing") config with
  | Some (VTable t) =>
      Some (dict_set (pystr "testing")
              (VTable (fold_left assign (testing_assignments mode) t))
              config)
  | _ => None
  end.

Definition enable_automated_testing (readable : bool) (o : write_outcome)
    (w : config_file) (self : runner) : bool * config_file :=
  match read_config readable w with
  | None => (false, w)
  | Some text =>
      match toml_load text with
      | None => (false, w)
      | Some config =>
          match enable_testing (test_mode self) config with
          | None => (false, w)
          | Some config' => write_config o w (toml_dump config')
          end
      end
  end.

End Toml.

(** *** The files of old test results *)

Definition MAX_TEST_RESULT_FILES : nat := 5.

Section Cleanup.

(** The values of [st_mtime], with [<] on them. *)
Variable mtime : Type.
Variable mtime_lt : mtime -> mtime -> bool.

(** A file that [glob] finds: its name, what [stat().st_mtime] gives
    ([None] when [stat] raises), and whether [unlink] works on it. *)
Record result_file := {
  file_name : str;
  st_mtime : option mtime;
  unlink_ok : bool
}.

(** [TEST_OUTPUT_DIR / "results"]: missing, or the files in it that match
    [test_results_*.json], in the order of [glob]. *)
Inductive results_dir :=
| NoDir
| Dir (files : list result_file).

(** The keys of the sort, computed for every file before any is moved. *)
Fixpoint stat_all (files : list result_file)
  : exc (list (mtime * result_file)) :=
  match files with
  | [] => Ret []
  | f :: rest =>
      match st_mtime f with
      | None => Raise OSError
      | Some t =>
          match stat_all rest with
          | Ret keyed => Ret ((t, f) :: keyed)
          | Raise e => Raise e
          end
      end
  end.

(** [sort(key=..., reverse=True)]: newest first, and files of equal time
    in the order they had. *)
Fixpoint insert_newest_first (x : mtime * result_file)
    (l : list (mtime * result_file)) : list (mtime * result_file) :=
  match l with
  | [] => [x]
  | y :: l' =>
      if mtime_lt (fst y) (fst x) then x :: y :: l'
      else y :: insert_newest_first x l'
  end.

Definition sort_newest_first (keyed : list (mtime * result_file))
  : list result_file :=
  map snd (fold_left (fun acc x => insert_newest_first x acc) keyed []).

(** [a] comes no later than [b] in a list that is sorted newest first. *)
Definition not_older (a b : mtime * result_file) : Prop :=
  mtime_lt (fst a) (fst b) = false.

(** [file_path.unlink()] inside [try]: the directory afterwards. *)
Definition unlink (dir : list result_file) (f : result_file)
  : list result_file :=
  if unlink_ok f
  then filter (fun g => negb (str_eqb (file_name g) (file_name f))) dir
  else dir.

(** A raise comes from [stat], before any file is unlinked. *)
Definition cleanup_old_test_result_files (d : results_dir)
  : exc results_dir :=
  match d with
  | NoDir => Ret NoDir
  | Dir timestamped_files =>
      if length timestamped_files <=? MAX_TEST_RESULT_FILES
      then Ret (Dir timestamped_files)
      else
        match stat_all timestamped_files with
        | Raise e => Raise e
        | Ret keyed =>
            let sorted := sort_newest_first keyed in
            let files_to_delete := skipn MAX_TEST_RESULT_FILES sorted in
            Ret (Dir (fold_left unlink files_to_delete timestamped_files))
        end
  end.

(** The files that the function keeps out of the loop of [unlink]. *)
Definition files_to_keep (keyed : list (mtime * result_file))
  : list result_file :=
  firstn MAX_TEST_RESULT_FILES (sort_newest_first keyed).

End Cleanup.

End Runner.

(** ** Sample inputs for the functions around [parse_log] *)

Definition crash_log : list str :=
  [pystr "[12:00:00] [Server/ERROR] crash in BiomePruner" ++ [NEWLINE];
   pystr "  at net.Foo.bar" ++ [NEWLINE];
   pystr "[12:00:01] [Server/INFO] ok" ++ [NEWLINE];
   pystr "[12:00:02] [Worker/WARN] slow" ++ [NEWLINE]].

Definition crash_fs : filesystem := fun _ => Readable crash_log.

(** A parser object of [minecraft_log_parser.py] without entries, whose
    [self.log_path] prints as [logs/latest.log]. *)
Definition latest_log_parser : Standalone.parser :=
  {| Standalone.log_path := pystr "logs/latest.log";
     Standalone.entries := [] |}.

(** The parser object that a call returns beside [True]. *)
Definition parsed {P : Type} (r : exc (bool * P)) (default : P) : P :=
  match r with
  | Ret (_, p) => p
  | Raise _ => default
  end.

(** A configuration with a [testing] table and one more section. *)
Definition sample_config : dict (Runner.value str) :=
  [(pystr "testing",
    Runner.VTable [(pystr "enabled", Runner.VBool str false);
                   (pystr "seed", Runner.VOther (pystr "42"))]);
   (pystr "biomes", Runner.VTable [])].

Definition sample_config_file : Runner.config_file :=
  {| Runner.config_text := Some (pystr "[testing]") |}.

(** Six files of results, with time stamps in seconds. *)
Definition result (name : string) (t : N) : Runner.result_file N :=
  {| Runner.file_name := pystr name;
     Runner.st_mtime := Some t;
     Runner.unlink_ok := true |}.

Definition six_results : list (Runner.result_file N) :=
  [result "test_results_1.json" 10; result "test_results_2.json" 60;
   result "test_results_3.json" 30; result "test_results_4.json" 40;
   result "test_results_5.json" 50; result "test_results_6.json" 20].

(** * Properties *)

(** ** Strings *)

Lemma startswith_iff (p s : str) :
  startswith p s = true <-> exists t, s = p ++ t.
Proof.
  revert s; induction p as [|a p IH]; intros s; simpl.
  - split; [intros _; now exists s | reflexivity].
  - destruct s as [|b s].
    + split; [discriminate | intros [t Ht]; discriminate].
    + rewrite andb_true_iff, N.eqb_eq, IH. split.
      * intros [-> [t ->]]. now exists t.
      * intros [t Ht]. injection Ht as -> ->. split; [reflexivity | now exists t].
Qed.

Lemma contains_iff (p s : str) :
  contains p s = true <-> exists a b, s = a ++ p ++ b.
Proof.
  induction s as [|c s IH].
  - simpl. rewrite orb_false_r, startswith_iff. split.
    + intros [t Ht]. now exists [], t.
    + intros [a [b H]]. destruct a; [now exists b | discriminate].
  - cbn [contains]. rewrite orb_true_iff, startswith_iff, IH. split.
    + intros [[t Ht] | [a [b Hab]]].
      * now exists [], t.
      * exists (c :: a), b. now rewrite Hab.
    + intros [[|x a] [b H]].
      * left. now exists b.
      * right. injection H as -> ->. now exists a, b.
Qed.

Lemma rstrip_cons_nonspace (c : char) (t : str) :
  isspace c = false -> rstrip (c :: t) = c :: rstrip t.
Proof.
  intros Hc. simpl. rewrite Hc. now destruct (rstrip t).
Qed.

(** Stripping never touches what comes before a character that is not
    whitespace. *)
Lemma rstrip_keeps (w : str) (c : char) (t : str) :
  isspace c = false -> rstrip (w ++ c :: t) = w ++ c :: rstrip t.
Proof.
  intros Hc. induction w as [|x w IH].
  - now apply rstrip_cons_nonspace.
  - cbn [app rstrip]. rewrite IH. now destruct w.
Qed.

Lemma rstrip_tail (s : str) :
  exists tail, s = rstrip s ++ tail /\ Forall (fun c => isspace c = true) tail.
Proof.
  induction s as [|c s [tail [Hs Ht]]].
  - now exists [].
  - simpl. destruct (rstrip s) as [|x r] eqn:E.
    + destruct (isspace c) eqn:Hc.
      * exists (c :: s). split; [reflexivity|].
        simpl in Hs. subst tail. now constructor.
      * exists tail. split; [|exact Ht]. simpl in *. now f_equal.
    + exists tail. split; [|exact Ht]. simpl. f_equal. exact Hs.
Qed.

Lemma rstrip_idempotent (s : str) : rstrip (rstrip s) = rstrip s.
Proof.
  induction s as [|c s IH]; [reflexivity|].
  simpl. destruct (rstrip s) as [|x r] eqn:E.
  - destruct (isspace c) eqn:Hc; [reflexivity|]. simpl. now rewrite Hc.
  - cbn [rstrip]. cbn [rstrip] in IH. rewrite IH. reflexivity.
Qed.

Lemma rstrip_keeps_prefix (p t : str) :
  ends_nonspace p -> rstrip (p ++ t) = p ++ rstrip t.
Proof.
  intros [w [c [-> Hc]]]. rewrite <- !app_assoc. simpl. now apply rstrip_keeps.
Qed.

Lemma startswith_rstrip (p s : str) :
  ends_nonspace p -> startswith p (rstrip s) = startswith p s.
Proof.
  intros Hp. apply eq_true_iff_eq. rewrite !startswith_iff. split.
  - intros [t Ht]. destruct (rstrip_tail s) as [tail [Hs _]].
    exists (t ++ tail). now rewrite Hs at 1; rewrite Ht, app_assoc.
  - intros [t ->]. exists (rstrip t). now apply rstrip_keeps_prefix.
Qed.

Lemma contains_rstrip (p s : str) :
  ends_nonspace p -> contains p (rstrip s) = contains p s.
Proof.
  intros Hp. apply eq_true_iff_eq. rewrite !contains_iff. split.
  - intros [a [b Hab]]. destruct (rstrip_tail s) as [tail [Hs _]].
    exists a, (b ++ tail). rewrite Hs at 1. rewrite Hab.
    now rewrite <- !app_assoc.
  - intros [a [b ->]]. exists a, (rstrip b).
    destruct Hp as [w [c [-> Hc]]].
    rewrite <- !app_assoc. simpl.
    rewrite app_assoc. rewrite rstrip_keeps by exact Hc.
    now rewrite <- app_assoc.
Qed.

(** ** What a pattern matches *)

Lemma matches_Empty w g g' : matches Empty w g g' <-> w = [] /\ g' = g.
Proof.
  split; [inversion 1; auto | intros [-> ->]; auto].
Qed.

Lemma matches_Chr p w g g' :
  matches (Chr p) w g g' <-> exists c, w = [c] /\ p c = true /\ g' = g.
Proof.
  split; [inversion 1; eauto | intros [c [-> [H ->]]]; auto].
Qed.

Lemma matches_Cat r1 r2 w g g' :
  matches (Cat r1 r2) w g g' <->
  exists w1 w2 g1, w = w1 ++ w2 /\ matches r1 w1 g g1 /\ matches r2 w2 g1 g'.
Proof.
  split.
  - inversion 1; subst. eauto 7.
  - intros [w1 [w2 [g1 [-> [H1 H2]]]]]. eauto.
Qed.

Lemma matches_Alt r1 r2 w g g' :
  matches (Alt r1 r2) w g g' <-> matches r1 w g g' \/ matches r2 w g g'.
Proof.
  split; [inversion 1; auto | intros [H|H]; auto].
Qed.

Lemma matches_Star p w g g' :
  matches (Star p) w g g' <-> Forall (fun c => p c = true) w /\ g' = g.
Proof.
  split; [inversion 1; auto | intros [H ->]; auto].
Qed.

Lemma matches_Group n r w g g' :
  matches (Group n r) w g g' <->
  exists g1, matches r w g g1 /\ g' = (n, w) :: g1.
Proof.
  split; [inversion 1; eauto | intros [g1 [H ->]]; auto].
Qed.

Lemma matches_Plus p w g g' :
  matches (Plus p) w g g' <->
  w <> [] /\ Forall (fun c => p c = true) w /\ g' = g.
Proof.
  unfold Plus. rewrite matches_Cat. split.
  - intros [w1 [w2 [g1 [-> [H1 H2]]]]].
    apply matches_Chr in H1 as [c [-> [Hc ->]]].
    apply matches_Star in H2 as [H2 ->].
    repeat split; [discriminate | now constructor].
  - intros [Hw [HF ->]]. destruct w as [|c w]; [contradiction|].
    inversion HF; subst. exists [c], w, g. repeat split; auto.
Qed.

Lemma matches_lit s w g g' : matches (lit s) w g g' <-> w = s /\ g' = g.
Proof.
  revert w g g'; induction s as [|c s IH]; intros w g g'; simpl.
  - apply matches_Empty.
  - rewrite matches_Cat. split.
    + intros [w1 [w2 [g1 [-> [H1 H2]]]]].
      apply matches_Chr in H1 as [x [-> [Hx ->]]].
      apply N.eqb_eq in Hx. apply IH in H2 as [-> ->]. now subst.
    + intros [-> ->]. exists [c], s, g. repeat split.
      * apply M_Chr, N.eqb_refl.
      * now apply IH.
Qed.

(** The results of the matcher are the matches of the pattern. *)
Lemma star_run_spec p s g s' g' :
  In (s', g') (star_run p s g) <->
  g' = g /\ exists w, s = w ++ s' /\ Forall (fun c => p c = true) w.
Proof.
  revert s' g'; induction s as [|c s IH]; intros s' g'; simpl.
  - split.
    + intros [H|[]]. injection H as <- <-. split; [reflexivity|]. now exists [].
    + intros [-> [w [Hw _]]]. symmetry in Hw.
      apply app_eq_nil in Hw as [_ ->]. now left.
  - destruct (p c) eqn:Hc.
    + rewrite in_app_iff, IH. simpl. split.
      * intros [[-> [w [-> HF]]] | [H|[]]].
        -- split; [reflexivity|]. exists (c :: w). split; [reflexivity|].
           now constructor.
        -- injection H as <- <-. split; [reflexivity|]. now exists [].
      * intros [-> [[|x w] [Hw HF]]].
        -- right. left. simpl in Hw. now subst.
        -- left. split; [reflexivity|]. injection Hw as <- ->.
           exists w. split; [reflexivity|]. now inversion HF.
    + simpl. split.
      * intros [H|[]]. injection H as <- <-. split; [reflexivity|]. now exists [].
      * intros [-> [[|x w] [Hw HF]]].
        -- left. simpl in Hw. now subst.
        -- injection Hw as <- ->. inversion HF; subst. congruence.
Qed.

Lemma firstn_consumed (w s1 : str) :
  firstn (length (w ++ s1) - length s1) (w ++ s1) = w.
Proof.
  rewrite length_app, Nat.add_sub.
  rewrite firstn_app, Nat.sub_diag, firstn_all. simpl. apply app_nil_r.
Qed.

Theorem run_spec r s g s' g' :
  In (s', g') (run r s g) <-> exists w, s = w ++ s' /\ matches r w g g'.
Proof.
  revert s g s' g'.
  induction r as [|p|r1 IH1 r2 IH2|r1 IH1 r2 IH2|p|n r IH];
    intros s g s' g'; simpl.
  - split.
    + intros [H|[]]. injection H as <- <-. exists []. auto.
    + intros [w [-> H]]. apply matches_Empty in H as [-> ->]. now left.
  - split.
    + destruct s as [|c s]; [intros []|].
      destruct (p c) eqn:Hc; [|intros []].
      intros [H|[]]. injection H as <- <-. exists [c]. auto.
    + intros [w [-> H]]. apply matches_Chr in H as [c [-> [Hc ->]]].
      simpl. rewrite Hc. now left.
  - rewrite in_flat_map. split.
    + intros [[s1 g1] [H1 H2]]. simpl in H2.
      apply IH1 in H1 as [w1 [-> M1]]. apply IH2 in H2 as [w2 [-> M2]].
      exists (w1 ++ w2). rewrite <- app_assoc. eauto.
    + intros [w [-> H]].
      apply matches_Cat in H as [w1 [w2 [g1 [-> [M1 M2]]]]].
      exists (w2 ++ s', g1). split.
      * apply IH1. exists w1. rewrite <- app_assoc. auto.
      * simpl. apply IH2. eauto.
  - rewrite in_app_iff, IH1, IH2. split.
    + intros [[w [-> H]] | [w [-> H]]]; exists w; auto.
    + intros [w [-> H]]. apply matches_Alt in H as [H|H]; eauto.
  - rewrite star_run_spec. split.
    + intros [-> [w [-> HF]]]. eauto.
    + intros [w [-> H]]. apply matches_Star in H as [HF ->]. eauto.
  - rewrite in_map_iff. split.
    + intros [[s1 g1] [E H]]. simpl in E. injection E as <- <-.
      apply IH in H as [w [-> M]]. exists w. rewrite firstn_consumed. auto.
    + intros [w [-> H]]. apply matches_Group in H as [g1 [M ->]].
      exists (s', g1). split.
      * simpl. now rewrite firstn_consumed.
      * apply IH. eauto.
Qed.

Lemma re_match_sound r s g : re_match r s = Some g -> prefix_match r s g.
Proof.
  unfold re_match. destruct (run r s []) as [|[s' g'] l] eqn:E; [discriminate|].
  simpl. intros H. injection H as <-.
  assert (Hin : In (s', g') (run r s [])) by (rewrite E; now left).
  apply run_spec in Hin as [w [-> M]]. now exists w, s'.
Qed.

Lemma re_match_complete r s g :
  prefix_match r s g -> exists g', re_match r s = Some g'.
Proof.
  intros [w [s' [-> M]]].
  assert (Hin : In (s', g) (run r (w ++ s') [])) by (apply run_spec; eauto).
  unfold re_match. destruct (run r (w ++ s') []) as [|[s1 g1] l]; [destruct Hin|].
  now exists g1.
Qed.

(** When all the matches of [s] capture the same, [match] returns that. *)
Lemma re_match_unique r s g :
  prefix_match r s g ->
  (forall g', prefix_match r s g' -> g' = g) ->
  re_match r s = Some g.
Proof.
  intros H U. destruct (re_match_complete H) as [g' E].
  rewrite E. f_equal. apply U. now apply re_match_sound.
Qed.

Lemma re_search_iff r s :
  truthy (re_search r s) = true <->
  exists a b g, s = a ++ b /\ prefix_match r b g.
Proof.
  induction s as [|c s IH]; simpl.
  - destruct (re_match r []) as [g|] eqn:E; simpl.
    + split; [intros _|reflexivity]. exists [], [], g. split; [reflexivity|].
      now apply re_match_sound.
    + split; [discriminate|]. intros [a [b [g [Hab H]]]].
      symmetry in Hab. apply app_eq_nil in Hab as [-> ->].
      destruct (re_match_complete H) as [g' E']. congruence.
  - destruct (re_match r (c :: s)) as [g|] eqn:E; simpl.
    + split; [intros _|reflexivity]. exists [], (c :: s), g.
      split; [reflexivity|]. now apply re_match_sound.
    + rewrite IH. split.
      * intros [a [b [g [-> H]]]]. now exists (c :: a), b, g.
      * intros [[|x a] [b [g [Hab H]]]].
        -- simpl in Hab. subst b.
           destruct (re_match_complete H) as [g' E']. congruence.
        -- injection Hab as <- ->. now exists a, b, g.
Qed.

(** ** The header pattern, in words *)

Lemma matches_level_alternatives w g g' :
  matches level_alternatives w g g' <-> is_level w /\ g' = g.
Proof.
  unfold level_alternatives, is_level.
  rewrite !matches_Alt, !matches_lit. tauto.
Qed.

Lemma matches_literal_char (c : char) w g g' :
  matches (Chr (N.eqb c)) w g g' <-> w = [c] /\ g' = g.
Proof.
  rewrite matches_Chr. split.
  - intros [x [-> [Hx ->]]]. apply N.eqb_eq in Hx. now subst.
  - intros [-> ->]. exists c. now rewrite N.eqb_refl.
Qed.

Lemma log_pattern_matches w g0 g :
  matches log_pattern w g0 g <->
  exists ts ws cat lvl,
    w = header_text ts ws cat lvl
    /\ ts <> [] /\ no_rbracket ts /\ all_space ws
    /\ cat <> [] /\ no_rbracket cat /\ is_level lvl
    /\ g = header_groups ts cat lvl ++ g0.
Proof.
  unfold log_pattern, header_text. split.
  - intros H.
    apply matches_Cat in H as [w1 [r1 [g1 [-> [H1 H]]]]].
    apply matches_literal_char in H1 as [-> ->].
    apply matches_Cat in H as [ts [r2 [g2 [-> [H2 H]]]]].
    apply matches_Group in H2 as [g2' [H2 ->]].
    apply matches_Plus in H2 as [Hts [Fts ->]].
    apply matches_Cat in H as [w3 [r3 [g3 [-> [H3 H]]]]].
    apply matches_literal_char in H3 as [-> ->].
    apply matches_Cat in H as [ws [r4 [g4 [-> [H4 H]]]]].
    apply matches_Star in H4 as [Fws ->].
    apply matches_Cat in H as [w5 [r5 [g5 [-> [H5 H]]]]].
    apply matches_literal_char in H5 as [-> ->].
    apply matches_Cat in H as [cat [r6 [g6 [-> [H6 H]]]]].
    apply matches_Group in H6 as [g6' [H6 ->]].
    apply matches_Plus in H6 as [Hcat [Fcat ->]].
    apply matches_Cat in H as [w7 [r7 [g7 [-> [H7 H]]]]].
    apply matches_literal_char in H7 as [-> ->].
    apply matches_Cat in H as [lvl [r8 [g8 [-> [H8 H]]]]].
    apply matches_Group in H8 as [g8' [H8 ->]].
    apply matches_level_alternatives in H8 as [Hlvl ->].
    apply matches_literal_char in H as [-> ->].
    exists ts, ws, cat, lvl. repeat split; assumption.
  - intros [ts [ws [cat [lvl [-> [Hts [Fts [Fws [Hcat [Fcat [Hlvl ->]]]]]]]]]]].
    apply M_Cat with (g1 := g0); [apply matches_literal_char; auto|].
    apply M_Cat with (g1 := (1, ts) :: g0);
      [apply M_Group, matches_Plus; auto|].
    apply M_Cat with (g1 := (1, ts) :: g0); [apply matches_literal_char; auto|].
    apply M_Cat with (g1 := (1, ts) :: g0); [apply M_Star; auto|].
    apply M_Cat with (g1 := (1, ts) :: g0); [apply matches_literal_char; auto|].
    apply M_Cat with (g1 := (2, cat) :: (1, ts) :: g0);
      [apply M_Group, matches_Plus; auto|].
    apply M_Cat with (g1 := (2, cat) :: (1, ts) :: g0);
      [apply matches_literal_char; auto|].
    apply M_Cat with (g1 := (3, lvl) :: (2, cat) :: (1, ts) :: g0);
      [apply M_Group, matches_level_alternatives; auto|].
    apply matches_literal_char; auto.
Qed.

Lemma prefix_match_log_pattern line g :
  prefix_match log_pattern line g <->
  exists ts cat lvl, header_shape line ts cat lvl /\ g = header_groups ts cat lvl.
Proof.
  unfold prefix_match, header_shape. split.
  - intros [w [s' [-> M]]].
    apply log_pattern_matches in M
      as [ts [ws [cat [lvl [-> [Hts [Fts [Fws [Hcat [Fcat [Hlvl ->]]]]]]]]]]].
    exists ts, cat, lvl. split; [|now rewrite app_nil_r].
    exists ws, s'. repeat split; assumption.
  - intros [ts [cat [lvl [[ws [rest [-> [Hts [Fts [Fws [Hcat [Fcat Hlvl]]]]]]]] ->]]]].
    exists (header_text ts ws cat lvl), rest. split; [reflexivity|].
    apply log_pattern_matches. exists ts, ws, cat, lvl.
    rewrite app_nil_r. repeat split; assumption.
Qed.

(** Reading a text up to the first character outside a class is
    unambiguous. *)
Lemma span_unique (p : char -> bool) (d : char) (a a' x x' : str) :
  p d = false ->
  Forall (fun c => p c = true) a -> Forall (fun c => p c = true) a' ->
  a ++ d :: x = a' ++ d :: x' -> a = a' /\ x = x'.
Proof.
  intros Hd Fa. revert a'. induction Fa as [|c a Hc Fa IH]; intros a' Fa' E.
  - destruct a' as [|c' a']; simpl in E.
    + injection E as <-. auto.
    + injection E as <- _. inversion Fa'; subst. congruence.
  - destruct a' as [|c' a']; simpl in E.
    + injection E as -> _. congruence.
    + injection E as <- E. inversion Fa'; subst.
      destruct (IH a' H2 E) as [-> ->]. auto.
Qed.

Lemma is_level_no_slash lvl : is_level lvl -> no_slash lvl.
Proof.
  intros [-> | [-> | ->]]; repeat constructor.
Qed.

Lemma is_level_no_rbracket lvl : is_level lvl -> no_rbracket lvl.
Proof.
  intros [-> | [-> | ->]]; repeat constructor.
Qed.

(** The slash before a text without slashes is the last slash of the span,
    so the span splits there in one way only. *)
Lemma category_level_unique (cat cat' lvl lvl' : str) :
  no_slash lvl -> no_slash lvl' ->
  cat ++ SLASH :: lvl = cat' ++ SLASH :: lvl' -> cat = cat' /\ lvl = lvl'.
Proof.
  intros L L' E. apply (f_equal (@rev char)) in E.
  rewrite !rev_app_distr in E. simpl in E. rewrite <- !app_assoc in E.
  simpl in E.
  apply span_unique with (p := not_char SLASH) in E as [E1 E2].
  - apply (f_equal (@rev char)) in E1, E2. rewrite !rev_involutive in E1, E2.
    auto.
  - reflexivity.
  - now apply Forall_rev.
  - now apply Forall_rev.
Qed.

Lemma isspace_LBRACKET : isspace LBRACKET = false.
Proof. reflexivity. Qed.

Lemma isspace_RBRACKET : isspace RBRACKET = false.
Proof. reflexivity. Qed.

(** A line has the header layout in one way at most. *)
Lemma header_text_unique ts ws cat lv rest ts' ws' cat' lv' rest' :
  no_rbracket ts -> no_rbracket ts' ->
  all_space ws -> all_space ws' ->
  no_rbracket cat -> no_rbracket cat' ->
  no_rbracket lv -> no_rbracket lv' ->
  no_slash lv -> no_slash lv' ->
  header_text ts ws cat lv ++ rest = header_text ts' ws' cat' lv' ++ rest' ->
  ts = ts' /\ cat = cat' /\ lv = lv'.
Proof.
  intros Fts Fts' Fws Fws' Fcat Fcat' Flv Flv' Slv Slv' E.
  unfold header_text in E.
  rewrite <- !app_assoc in E. simpl in E. injection E as E.
  apply span_unique with (p := not_char RBRACKET) in E as [<- E];
    [|reflexivity|assumption|assumption].
  apply span_unique with (p := isspace) in E as [<- E];
    [|reflexivity|assumption|assumption].
  change (cat ++ SLASH :: lv ++ RBRACKET :: rest)
    with (cat ++ (SLASH :: lv) ++ RBRACKET :: rest) in E.
  change (cat' ++ SLASH :: lv' ++ RBRACKET :: rest')
    with (cat' ++ (SLASH :: lv') ++ RBRACKET :: rest') in E.
  rewrite !app_assoc in E.
  apply span_unique with (p := not_char RBRACKET) in E as [E _].
  - apply category_level_unique in E as [-> ->]; auto.
  - reflexivity.
  - apply Forall_app. split; [assumption|].
    constructor; [reflexivity | assumption].
  - apply Forall_app. split; [assumption|].
    constructor; [reflexivity | assumption].
Qed.

Lemma header_shape_unique line ts cat lvl ts' cat' lvl' :
  header_shape line ts cat lvl -> header_shape line ts' cat' lvl' ->
  ts = ts' /\ cat = cat' /\ lvl = lvl'.
Proof.
  intros [ws [rest [E [_ [Fts [Fws [_ [Fcat Hlvl]]]]]]]]
         [ws' [rest' [E' [_ [Fts' [Fws' [_ [Fcat' Hlvl']]]]]]]].
  rewrite E in E'.
  apply header_text_unique in E';
    auto using is_level_no_slash, is_level_no_rbracket.
Qed.

(** [log_pattern.match(line)] succeeds exactly on the lines of the header
    shape, and captures the timestamp, the category and the level. *)
Theorem log_pattern_match_iff line g :
  re_match log_pattern line = Some g <->
  exists ts cat lvl, header_shape line ts cat lvl /\ g = header_groups ts cat lvl.
Proof.
  split.
  - intros H. now apply prefix_match_log_pattern, re_match_sound.
  - intros [ts [cat [lvl [H ->]]]]. apply re_match_unique.
    + apply prefix_match_log_pattern. eauto.
    + intros g' H'. apply prefix_match_log_pattern in H'
        as [ts' [cat' [lvl' [H' ->]]]].
      destruct (header_shape_unique H' H) as [-> [-> ->]]. reflexivity.
Qed.

Lemma header_shape_match line ts cat lvl :
  header_shape line ts cat lvl ->
  re_match log_pattern line = Some (header_groups ts cat lvl).
Proof.
  intros H. apply log_pattern_match_iff. eauto.
Qed.

Lemma log_pattern_match_none line :
  re_match log_pattern line = None <->
  forall ts cat lvl, ~ header_shape line ts cat lvl.
Proof.
  split.
  - intros E ts cat lvl H. apply header_shape_match in H. congruence.
  - intros H. destruct (re_match log_pattern line) as [g|] eqn:E; [|reflexivity].
    apply log_pattern_match_iff in E as [ts [cat [lvl [Hs _]]]].
    now apply H in Hs.
Qed.

(** ** Stripping a line first changes none of the tests *)

Lemma header_text_ends_nonspace ts ws cat lvl :
  ends_nonspace (header_text ts ws cat lvl).
Proof.
  exists ([LBRACKET] ++ ts ++ [RBRACKET] ++ ws ++ [LBRACKET] ++ cat
          ++ [SLASH] ++ lvl), RBRACKET.
  split; [|reflexivity]. unfold header_text.
  now rewrite <- !app_assoc.
Qed.

Lemma header_shape_rstrip line ts cat lvl :
  header_shape (rstrip line) ts cat lvl <-> header_shape line ts cat lvl.
Proof.
  split; intros [ws [rest [E H]]].
  - destruct (rstrip_tail line) as [tail [Hl _]].
    exists ws, (rest ++ tail). split; [|exact H].
    rewrite Hl, E. now rewrite <- app_assoc.
  - exists ws, (rstrip rest). split; [|exact H].
    rewrite E. apply rstrip_keeps_prefix, header_text_ends_nonspace.
Qed.

Lemma log_pattern_match_rstrip line :
  re_match log_pattern (rstrip line) = re_match log_pattern line.
Proof.
  destruct (re_match log_pattern line) as [g|] eqn:E.
  - apply log_pattern_match_iff in E as [ts [cat [lvl [H ->]]]].
    apply header_shape_match. now apply <- header_shape_rstrip.
  - apply log_pattern_match_none. intros ts cat lvl H.
    apply -> header_shape_rstrip in H.
    apply header_shape_match in H. congruence.
Qed.

Lemma is_boundary_rstrip line : is_boundary (rstrip line) = is_boundary line.
Proof.
  unfold is_boundary. rewrite startswith_rstrip, contains_rstrip; [reflexivity| |].
  - exists (pystr "] "), LBRACKET. split; reflexivity.
  - exists [], LBRACKET. split; reflexivity.
Qed.

(** ** The tag pattern, in words *)

Lemma matches_lit_ignorecase p w g g' :
  matches (lit_ignorecase p) w g g' <-> ignorecase_equal p w /\ g' = g.
Proof.
  revert w g g'; induction p as [|c p IH]; intros w g g'; simpl.
  - rewrite matches_Empty. split.
    + intros [-> ->]. split; [constructor | reflexivity].
    + intros [H ->]. now inversion H.
  - rewrite matches_Cat. split.
    + intros [w1 [w2 [g1 [-> [H1 H2]]]]].
      apply matches_Chr in H1 as [x [-> [Hx ->]]].
      apply IH in H2 as [H2 ->]. split; [|reflexivity]. now constructor.
    + intros [H ->]. inversion H as [|c' x p' w' Hx Hw]; subst.
      exists [x], w', g. repeat split; auto. now apply IH.
Qed.

(** The second alternative of the pattern matches nothing the first does
    not. *)
Lemma ignorecase_equal_capitals w :
  ignorecase_equal (pystr "BiomePruner") w <-> ignorecase_equal TAG w.
Proof.
  unfold ignorecase_equal, TAG.
  split; intros H; eval_literals; invert_Forall2;
    repeat constructor; assumption.
Qed.

Lemma matches_biomepruner_pattern w g g' :
  matches biomepruner_pattern w g g' <-> ignorecase_equal TAG w /\ g' = g.
Proof.
  unfold biomepruner_pattern.
  rewrite matches_Alt, !matches_lit_ignorecase, ignorecase_equal_capitals.
  unfold TAG. tauto.
Qed.

Lemma tag_matches_iff line :
  tag_matches line = true <-> contains_ignorecase TAG line.
Proof.
  unfold tag_matches, contains_ignorecase. rewrite re_search_iff. split.
  - intros [a [b [g [-> [w [s' [-> M]]]]]]].
    apply matches_biomepruner_pattern in M as [M _]. now exists a, w, s'.
  - intros [a [w [b [-> M]]]]. exists a, (w ++ b), [].
    split; [reflexivity|]. exists w, b. split; [reflexivity|].
    now apply matches_biomepruner_pattern.
Qed.

Lemma ignorecase_r_nonspace x :
  ignorecase_eqb 114%N x = true -> isspace x = false.
Proof.
  unfold ignorecase_eqb.
  change (is_ascii_letter 114%N) with true.
  change (ascii_lower 114%N) with 114%N. cbv iota zeta.
  change (114 =? 105)%N with false. change (114 =? 107)%N with false.
  change (114 =? 115)%N with false. cbn [andb]. rewrite !orb_false_r.
  unfold ascii_lower.
  destruct ((65 <=? x)%N && (x <=? 90)%N) eqn:E; intros H;
    apply N.eqb_eq in H.
  - assert (x = 82%N) as -> by lia. reflexivity.
  - subst x. reflexivity.
Qed.

Lemma tag_ends_nonspace w : ignorecase_equal TAG w -> ends_nonspace w.
Proof.
  unfold ignorecase_equal, TAG. intros H.
  eval_literals. invert_Forall2.
  match goal with
  | |- ends_nonspace [?a; ?b; ?c; ?d; ?e; ?f; ?g; ?h; ?i; ?j; ?k] =>
      exists [a; b; c; d; e; f; g; h; i; j], k
  end.
  split; [reflexivity|]. now apply ignorecase_r_nonspace.
Qed.

Lemma tag_matches_rstrip line : tag_matches (rstrip line) = tag_matches line.
Proof.
  apply eq_true_iff_eq. rewrite !tag_matches_iff. split.
  - intros [a [w [b [E H]]]]. destruct (rstrip_tail line) as [tail [Hl _]].
    exists a, w, (b ++ tail). split; [|exact H].
    rewrite Hl, E. now rewrite <- !app_assoc.
  - intros [a [w [b [-> H]]]]. exists a, w, (rstrip b). split; [|exact H].
    destruct (tag_ends_nonspace H) as [w' [c [-> Hc]]].
    rewrite <- !app_assoc. simpl.
    rewrite app_assoc, rstrip_keeps by exact Hc.
    now rewrite <- app_assoc.
Qed.

(** ** The loop, line by line *)

Lemma is_header_rstrip line : is_header (rstrip line) = is_header line.
Proof. unfold is_header. now rewrite log_pattern_match_rstrip. Qed.

Lemma continues_rstrip line : continues (rstrip line) = continues line.
Proof. unfold continues. now rewrite is_header_rstrip, is_boundary_rstrip. Qed.

Lemma continuation_run_Forall lines :
  Forall (fun l => continues l = true) (continuation_run lines).
Proof.
  induction lines as [|l rest IH]; simpl; [constructor|].
  destruct (continues l) eqn:E; now constructor.
Qed.

Lemma continuation_run_prefix lines :
  lines = continuation_run lines
          ++ skipn (length (continuation_run lines)) lines.
Proof.
  induction lines as [|l rest IH]; simpl; [reflexivity|].
  destruct (continues l); simpl; [now f_equal | reflexivity].
Qed.

Lemma continuation_run_nth lines j :
  j < length (continuation_run lines) ->
  nth_error (continuation_run lines) j = nth_error lines j.
Proof.
  intros H. rewrite (continuation_run_prefix lines) at 2.
  now rewrite nth_error_app1.
Qed.

Lemma continuation_run_stops lines l :
  nth_error lines (length (continuation_run lines)) = Some l ->
  continues l = false.
Proof.
  induction lines as [|x rest IH]; simpl; [discriminate|].
  destruct (continues x) eqn:E; simpl.
  - exact IH.
  - intros H. now injection H as <-.
Qed.

Lemma subsequence_refl {A} (l : list A) : subsequence l l.
Proof. induction l; now constructor. Qed.

Lemma subsequence_nil {A} (l : list A) : subsequence [] l.
Proof. induction l; now constructor. Qed.

Lemma subsequence_app {A} (a a' b b' : list A) :
  subsequence a b -> subsequence a' b' -> subsequence (a ++ a') (b ++ b').
Proof.
  induction 1; intros H'; simpl; [exact H' | |]; constructor; auto.
Qed.

Lemma subsequence_length {A} (a b : list A) :
  subsequence a b -> length a <= length b.
Proof. induction 1; simpl; lia. Qed.

Module StandaloneFacts.
Import Standalone StandaloneAux.

Lemma extend_nil e : extend e [] = e.
Proof. destruct e. unfold extend. simpl. now rewrite app_nil_r. Qed.

Lemma extend_content_append e l ks :
  extend (content_append e (rstrip l)) ks = extend e (l :: ks).
Proof.
  unfold extend, content_append. simpl. now rewrite <- app_assoc.
Qed.

Lemma for_loop_entries lines : forall i es cur,
  save (fst (for_loop i lines es cur)) (snd (for_loop i lines es cur))
  = es
    ++ match cur with
       | Some e => [extend e (continuation_run lines)]
       | None => []
       end
    ++ entries_from i lines.
Proof.
  induction lines as [|l rest IH]; intros i es cur.
  - simpl. destruct cur as [e|]; simpl.
    + now rewrite extend_nil.
    + now rewrite app_nil_r.
  - cbn [for_loop]. rewrite IH. unfold loop_body.
    cbn [continuation_run entries_from]. unfold continues, is_header.
    fold (is_boundary l).
    destruct (re_match log_pattern l) as [m|] eqn:Em; cbn [fst snd truthy negb andb].
    + destruct cur as [e|]; cbn [save].
      * rewrite extend_nil. now rewrite <- app_assoc.
      * reflexivity.
    + destruct cur as [e|]; [|reflexivity].
      destruct (is_boundary l); cbn [fst snd negb].
      * rewrite extend_nil. now rewrite <- app_assoc.
      * now rewrite extend_content_append.
Qed.

Lemma parse_lines_entries lines es :
  parse_lines lines es = es ++ entries_from 0 lines.
Proof. unfold parse_lines. cbv zeta. now rewrite for_loop_entries. Qed.

Lemma segment_entries lines : segment lines = entries_from 0 lines.
Proof. unfold segment. now rewrite parse_lines_entries. Qed.

(** The entries are those opened by the header lines. *)
Lemma In_entries_from lines : forall i e,
  In e (entries_from i lines) <->
  exists k l m,
    nth_error lines k = Some l
    /\ re_match log_pattern l = Some m
    /\ e = opened (i + k) l m (continuation_run (skipn (S k) lines)).
Proof.
  induction lines as [|x rest IH]; intros i e.
  - simpl. split; [intros [] | intros [[|k] [l [m [H _]]]]; discriminate].
  - cbn [entries_from].
    assert (Htail : In e (entries_from (S i) rest) <->
                    exists k l m,
                      nth_error (x :: rest) (S k) = Some l
                      /\ re_match log_pattern l = Some m
                      /\ e = opened (i + S k) l m
                               (continuation_run (skipn (S (S k)) (x :: rest)))).
    { rewrite IH. split; intros [k [l [m [H1 [H2 H3]]]]]; exists k, l, m;
        (split; [exact H1 | split; [exact H2|]]);
        simpl; simpl in H3; rewrite H3; f_equal; lia. }
    destruct (re_match log_pattern x) as [mx|] eqn:Ex.
    + cbn [In]. rewrite Htail. split.
      * intros [<- | [k [l [m H]]]].
        -- exists 0, x, mx. simpl. rewrite Nat.add_0_r. auto.
        -- exists (S k), l, m. exact H.
      * intros [[|k] [l [m [H1 [H2 H3]]]]].
        -- left. simpl in H1. injection H1 as <-.
           rewrite Ex in H2. injection H2 as <-.
           simpl in H3. rewrite Nat.add_0_r in H3. now symmetry.
        -- right. now exists k, l, m.
    + rewrite Htail. split.
      * intros [k [l [m H]]]. now exists (S k), l, m.
      * intros [[|k] [l [m [H1 [H2 H3]]]]].
        -- simpl in H1. injection H1 as <-. congruence.
        -- now exists k, l, m.
Qed.

Lemma entries_from_skip ks rest : forall i,
  Forall (fun l => is_header l = false) ks ->
  entries_from i (ks ++ rest) = entries_from (i + length ks) rest.
Proof.
  induction ks as [|l ks IH]; intros i H; simpl.
  - now rewrite Nat.add_0_r.
  - inversion H as [|? ? Hl Hks]; subst. unfold is_header in Hl.
    destruct (re_match log_pattern l); [discriminate|].
    rewrite IH by assumption. f_equal. lia.
Qed.

Lemma continues_not_header l : continues l = true -> is_header l = false.
Proof.
  unfold continues. rewrite andb_true_iff, !negb_true_iff. tauto.
Qed.

(** After a header line, the loop first passes the lines that continue
    the entry. *)
Lemma entries_from_after_run i rest :
  entries_from i rest
  = entries_from (i + length (continuation_run rest))
      (skipn (length (continuation_run rest)) rest).
Proof.
  rewrite (continuation_run_prefix rest) at 1.
  apply entries_from_skip.
  eapply Forall_impl; [|apply continuation_run_Forall].
  intros l. apply continues_not_header.
Qed.

(** Every line of the content of an entry is the stripped text of the
    input line at its place: the header line first, then lines that
    continue it. *)
Lemma content_lines lines e :
  In e (entries_from 0 lines) ->
  forall j c,
    nth_error (content e) j = Some c ->
    exists l,
      nth_error lines (line_number e - 1 + j) = Some l
      /\ c = rstrip l
      /\ (j = 0 -> is_header l = true)
      /\ (0 < j -> continues l = true).
Proof.
  intros H j c Hc.
  apply In_entries_from in H as [k [l [m [Hl [Hm ->]]]]].
  cbn [opened line_number content] in *.
  replace (0 + k + 1 - 1 + j) with (k + j) by lia.
  destruct j as [|j].
  - cbn [nth_error] in Hc. injection Hc as <-. exists l.
    rewrite Nat.add_0_r. repeat split; [exact Hl | | lia].
    intros _. unfold is_header. now rewrite Hm.
  - cbn [nth_error] in Hc. rewrite nth_error_map in Hc.
    destruct (nth_error (continuation_run (skipn (S k) lines)) j)
      as [l'|] eqn:El'; [|discriminate].
    cbn [option_map] in Hc. injection Hc as <-. exists l'.
    assert (Hj : j < length (continuation_run (skipn (S k) lines))).
    { apply nth_error_Some. congruence. }
    repeat split; [| lia |].
    + rewrite continuation_run_nth, nth_error_skipn in El' by exact Hj.
      rewrite <- El'. f_equal. lia.
    + intros _. apply nth_error_In in El'.
      pose proof (continuation_run_Forall (skipn (S k) lines)) as F.
      rewrite Forall_forall in F. now apply F.
Qed.

Lemma skipn_nth_error {A} (l : list A) k x :
  nth_error l k = Some x -> skipn k l = x :: skipn (S k) l.
Proof.
  revert k; induction l as [|y l IH]; intros [|k] H; try discriminate.
  - simpl in H. now injection H as ->.
  - simpl in H. apply IH in H. exact H.
Qed.

(** The content of an entry is a block of consecutive input lines. *)
Lemma content_block lines e :
  In e (entries_from 0 lines) ->
  1 <= line_number e
  /\ content e <> []
  /\ content e
     = map rstrip (firstn (length (content e))
                     (skipn (line_number e - 1) lines)).
Proof.
  intros H.
  apply In_entries_from in H as [k [l [m [Hl [Hm ->]]]]].
  cbn [opened line_number content].
  split; [lia|]. split; [discriminate|].
  replace (0 + k + 1 - 1) with k by lia.
  rewrite (skipn_nth_error _ _ Hl). cbn [length firstn map]. f_equal.
  rewrite length_map.
  rewrite (continuation_run_prefix (skipn (S k) lines)) at 3.
  rewrite firstn_app, firstn_all, Nat.sub_diag. simpl.
  now rewrite app_nil_r.
Qed.

Lemma ordered_from_le lo lo' es :
  lo' <= lo -> ordered_from lo es -> ordered_from lo' es.
Proof.
  destruct es as [|e es]; simpl; [auto|]. intros H [H1 H2]. split; [lia|auto].
Qed.

Lemma entries_from_ordered n : forall lines i,
  length lines <= n -> ordered_from i (entries_from i lines).
Proof.
  induction n as [|n IH]; intros [|l rest] i Hn; simpl in *; try exact I;
    [lia|].
  destruct (re_match log_pattern l) as [m|].
  - cbn [ordered_from opened line_number content]. split; [lia|].
    rewrite entries_from_after_run. cbn [length]. rewrite length_map.
    eapply ordered_from_le; [|apply IH].
    + lia.
    + rewrite length_skipn. lia.
  - eapply ordered_from_le; [|apply IH]; lia.
Qed.

Lemma ordered_from_In lo es e :
  ordered_from lo es -> In e es -> lo < line_number e.
Proof.
  revert lo; induction es as [|x es IH]; intros lo H Hin; [destruct Hin|].
  simpl in H. destruct H as [H1 H2]. destruct Hin as [->|Hin]; [exact H1|].
  specialize (IH _ H2 Hin). lia.
Qed.

(** No line is held by two entries. *)
Lemma ordered_from_disjoint lo es e1 e2 p :
  ordered_from lo es -> In e1 es -> In e2 es ->
  holds_line e1 p -> holds_line e2 p -> e1 = e2.
Proof.
  unfold holds_line.
  revert lo; induction es as [|x es IH]; intros lo H In1 In2 P1 P2;
    [destruct In1|].
  simpl in H. destruct H as [H1 H2].
  destruct In1 as [->|In1], In2 as [->|In2].
  - reflexivity.
  - pose proof (@ordered_from_In _ _ _ H2 In2). lia.
  - pose proof (@ordered_from_In _ _ _ H2 In1). lia.
  - eauto.
Qed.

Lemma entries_from_subsequence n : forall lines i,
  length lines <= n ->
  subsequence (concat (map content (entries_from i lines)))
              (map rstrip lines).
Proof.
  induction n as [|n IH]; intros [|l rest] i Hn;
    try apply sub_nil; [simpl in Hn; lia|].
  cbn [entries_from map]. cbn [length] in Hn.
  destruct (re_match log_pattern l) as [m|].
  - cbn [map concat opened content app]. constructor.
    rewrite entries_from_after_run.
    assert (E : map rstrip rest
                = map rstrip (continuation_run rest)
                  ++ map rstrip
                       (skipn (length (continuation_run rest)) rest)).
    { now rewrite <- map_app, <- continuation_run_prefix. }
    rewrite E.
    apply subsequence_app; [apply subsequence_refl|].
    apply IH. rewrite length_skipn. lia.
  - constructor. apply IH. lia.
Qed.

End StandaloneFacts.

(** ** The copy in the test runner *)
Module TestRunnerFacts.
Import TestRunner TestRunnerAux.

Lemma save_to_standalone es cur :
  map to_standalone (save es cur)
  = Standalone.save (map to_standalone es) (option_map to_standalone cur).
Proof.
  destruct cur; simpl; [|reflexivity]. now rewrite map_app.
Qed.

Lemma for_loop_to_standalone lines : forall i es cur,
  Standalone.for_loop i lines
    (map to_standalone es) (option_map to_standalone cur)
  = (map to_standalone (fst (for_loop i lines es cur)),
     option_map to_standalone (snd (for_loop i lines es cur))).
Proof.
  induction lines as [|l rest IH]; intros i es cur; [reflexivity|].
  cbn [for_loop Standalone.for_loop]. rewrite <- IH. f_equal.
  - unfold loop_body, Standalone.loop_body.
    destruct (re_match log_pattern l); cbn [fst].
    + now rewrite save_to_standalone.
    + destruct cur as [e|]; [|reflexivity]. cbn [option_map].
      destruct (startswith OPEN l && contains CLOSE_OPEN l); cbn [fst].
      * now rewrite map_app.
      * reflexivity.
  - unfold loop_body, Standalone.loop_body.
    destruct (re_match log_pattern l); cbn [snd]; [reflexivity|].
    destruct cur as [e|]; [|reflexivity]. cbn [option_map].
    now destruct (startswith OPEN l && contains CLOSE_OPEN l).
Qed.

Lemma segment_to_standalone lines :
  map to_standalone (segment lines) = Standalone.segment lines.
Proof.
  unfold segment, parse_lines, Standalone.segment, Standalone.parse_lines.
  cbv zeta. rewrite save_to_standalone.
  pose proof (for_loop_to_standalone lines 0 [] None) as H. simpl in H.
  now rewrite H.
Qed.

End TestRunnerFacts.

(** ** The copy in the log tooling *)
Module ToolingFacts.
Import Tooling ToolingAux.

Lemma save_forget es cur :
  map forget (save es cur)
  = Standalone.save (map forget es) (option_map forget cur).
Proof.
  destruct cur; simpl; [|reflexivity]. now rewrite map_app.
Qed.

Lemma loop_body_forget i l st :
  Standalone.loop_body i l
    (map forget (st_entries st)) (option_map forget (st_current st))
  = (map forget (st_entries (loop_body i l st)),
     option_map forget (st_current (loop_body i l st))).
Proof.
  unfold loop_body, Standalone.loop_body. cbv zeta.
  fold (is_boundary l). fold (is_boundary (rstrip l)).
  rewrite log_pattern_match_rstrip, is_boundary_rstrip.
  destruct (re_match log_pattern l); cbn [st_entries st_current].
  - now rewrite save_forget.
  - destruct (st_current st) as [e|]; cbn [option_map]; [|reflexivity].
    destruct (is_boundary l); cbn [st_entries st_current option_map].
    + now rewrite map_app.
    + reflexivity.
Qed.

Lemma for_loop_forget lines : forall i st,
  Standalone.for_loop i lines
    (map forget (st_entries st)) (option_map forget (st_current st))
  = (map forget (st_entries (for_loop i lines st)),
     option_map forget (st_current (for_loop i lines st))).
Proof.
  induction lines as [|l rest IH]; intros i st; [reflexivity|].
  cbn [for_loop Standalone.for_loop]. rewrite <- IH.
  now rewrite loop_body_forget.
Qed.

Lemma segment_forget lines :
  map forget (segment lines) = Standalone.segment lines.
Proof.
  unfold segment, parse_lines, Standalone.segment, Standalone.parse_lines.
  cbv zeta. cbn [fst]. rewrite save_forget.
  pose proof (for_loop_forget lines 0
                {| st_entries := []; st_messages := [];
                   st_current := None |}) as H.
  simpl in H. now rewrite H.
Qed.

Lemma content_append_flag_ok e x :
  flag_ok e -> flag_ok (content_append e x).
Proof.
  unfold flag_ok, content_append. cbn [is_biomepruner content].
  intros ->. rewrite existsb_app. simpl. fold (tag_matches x).
  destruct (tag_matches x); now rewrite ?orb_true_r, ?orb_false_r.
Qed.

Lemma save_flags_ok es cur :
  Forall flag_ok es -> (forall e, cur = Some e -> flag_ok e) ->
  Forall flag_ok (save es cur).
Proof.
  intros Hes Hcur. destruct cur as [e|]; simpl; [|exact Hes].
  apply Forall_app. split; [exact Hes|]. constructor; auto.
Qed.

Lemma loop_body_flags_ok i l st : flags_ok st -> flags_ok (loop_body i l st).
Proof.
  intros [Hes Hcur]. unfold loop_body. cbv zeta.
  destruct (re_match log_pattern (rstrip l)).
  - split; cbn [st_entries st_current].
    + now apply save_flags_ok.
    + intros e E. injection E as <-. unfold flag_ok. simpl.
      now rewrite orb_false_r.
  - destruct (st_current st) as [e|] eqn:Ec.
    + destruct (startswith OPEN (rstrip l) && contains CLOSE_OPEN (rstrip l));
        split; cbn [st_entries st_current].
      * apply Forall_app. split; [exact Hes|]. constructor; auto.
      * discriminate.
      * exact Hes.
      * intros e' E. injection E as <-. apply content_append_flag_ok. auto.
    + split; cbn [st_entries st_current]; [exact Hes | discriminate].
Qed.

Lemma for_loop_flags_ok lines : forall i st,
  flags_ok st -> flags_ok (for_loop i lines st).
Proof.
  induction lines as [|l rest IH]; intros i st H; [exact H|].
  cbn [for_loop]. now apply IH, loop_body_flags_ok.
Qed.

Lemma segment_flag_ok lines e : In e (segment lines) -> flag_ok e.
Proof.
  unfold segment, parse_lines. cbv zeta. cbn [fst]. intros H.
  assert (F : flags_ok (for_loop 0 lines
                          {| st_entries := []; st_messages := [];
                             st_current := None |})).
  { apply for_loop_flags_ok. split; [constructor | discriminate]. }
  destruct F as [Hes Hcur].
  eapply Forall_forall; [|exact H]. now apply save_flags_ok.
Qed.

Lemma loop_body_messages i l st :
  st_messages (loop_body i l st) = st_messages st ++ scan i [l].
Proof.
  unfold loop_body. cbv zeta. cbn [scan].
  fold (tag_matches (rstrip l)). fold (is_boundary (rstrip l)).
  destruct (re_match log_pattern (rstrip l));
    [|destruct (st_current st); [destruct (is_boundary (rstrip l))|]];
    cbn [st_messages]; destruct (tag_matches (rstrip l));
    now rewrite ?app_nil_r.
Qed.

Lemma for_loop_messages lines : forall i st,
  st_messages (for_loop i lines st) = st_messages st ++ scan i lines.
Proof.
  induction lines as [|l rest IH]; intros i st.
  - simpl. now rewrite app_nil_r.
  - cbn [for_loop]. rewrite IH, loop_body_messages, <- app_assoc.
    f_equal. simpl. now destruct (tag_matches (rstrip l)).
Qed.

Lemma scan_filter lines : forall i,
  scan i lines
  = map (fun nl => {| msg_line_number := fst nl;
                      msg_content := rstrip (snd nl) |})
      (filter (fun nl => tag_matches (snd nl))
         (combine (seq (i + 1) (length lines)) lines)).
Proof.
  induction lines as [|l rest IH]; intros i; [reflexivity|].
  cbn [scan length seq combine filter snd]. rewrite tag_matches_rstrip.
  rewrite IH. replace (S i + 1) with (S (i + 1)) by lia.
  now destruct (tag_matches l).
Qed.

End ToolingFacts.

(** * The specification, claim by claim *)

(** ** Headers *)

Lemma standalone_opens_iff lines n :
  (exists e, In e (Standalone.segment lines) /\ Standalone.line_number e = n)
  <-> header_at lines n.
Proof.
  rewrite StandaloneFacts.segment_entries. unfold header_at. split.
  - intros [e [H Hn]].
    apply StandaloneFacts.In_entries_from in H as [k [l [m [Hl [Hm ->]]]]].
    simpl in Hn. subst n.
    apply log_pattern_match_iff in Hm as [ts [cat [lvl [Hs _]]]].
    exists l, ts, cat, lvl. split; [lia|]. split; [|exact Hs].
    now replace (k + 1 - 1) with k by lia.
  - intros [l [ts [cat [lvl [Hn [Hl Hs]]]]]].
    exists (StandaloneAux.opened (0 + (n - 1)) l (header_groups ts cat lvl)
              (continuation_run (skipn (S (n - 1)) lines))).
    split.
    + apply StandaloneFacts.In_entries_from.
      exists (n - 1), l, (header_groups ts cat lvl).
      split; [exact Hl|]. split; [|reflexivity].
      now apply header_shape_match.
    + simpl. lia.
Qed.

Lemma tooling_opens_iff lines n :
  (exists e, In e (Tooling.segment lines) /\ Tooling.line_number e = n)
  <-> header_at lines n.
Proof.
  rewrite <- standalone_opens_iff, <- ToolingFacts.segment_forget. split.
  - intros [e [H Hn]]. exists (ToolingAux.forget e). split; [|exact Hn].
    now apply in_map.
  - intros [e [H Hn]]. apply in_map_iff in H as [e' [<- H]]. now exists e'.
Qed.

Lemma standalone_entry_fields lines n e :
  In e (Standalone.segment lines) -> Standalone.line_number e = n ->
  exists l ts cat lvl,
    nth_error lines (n - 1) = Some l
    /\ header_shape l ts cat lvl
    /\ Standalone.timestamp e = Some ts
    /\ Standalone.category e = Some cat
    /\ Standalone.level e = Some lvl.
Proof.
  rewrite StandaloneFacts.segment_entries. intros H Hn.
  apply StandaloneFacts.In_entries_from in H as [k [l [m [Hl [Hm ->]]]]].
  simpl in Hn. subst n.
  apply log_pattern_match_iff in Hm as [ts [cat [lvl [Hs ->]]]].
  exists l, ts, cat, lvl. replace (k + 1 - 1) with k by lia.
  repeat split; assumption.
Qed.

(** A line of the header layout whose level text is not one of the three
    has no header shape. *)
Lemma other_level_no_header ts ws cat other rest ts' cat' lvl' :
  no_rbracket ts -> all_space ws -> no_rbracket cat ->
  no_rbracket other -> no_slash other -> ~ is_level other ->
  ~ header_shape (header_text ts ws cat other ++ rest) ts' cat' lvl'.
Proof.
  intros Fts Fws Fcat Fo So No [ws' [rest' [E [_ [Fts' [Fws' [_ [Fcat' L]]]]]]]].
  apply header_text_unique in E as [_ [_ E]];
    auto using is_level_no_slash, is_level_no_rbracket.
  subst other. contradiction.
Qed.

(** C1. A line opens an entry exactly when it has the header shape: it
    starts with a bracketed span that holds the timestamp, followed, with
    nothing but optional whitespace between them, by a second bracketed
    span that holds a category, a slash and one of WARN, ERROR, FATAL in
    capitals.  In both copies cited, for every line sequence, there is an
    entry with line number [n] if and only if line [n] is such a line; the
    entry then carries the timestamp, the category and the level of that
    line; and a line of that layout with any other text for a level opens
    no entry. *)
Theorem header_lines_open_entries (lines : list str) (n : nat) :
  ((exists e, In e (Standalone.segment lines)
              /\ Standalone.line_number e = n)
   <-> header_at lines n)
  /\ ((exists e, In e (Tooling.segment lines) /\ Tooling.line_number e = n)
      <-> header_at lines n)
  /\ (forall e,
        In e (Standalone.segment lines) -> Standalone.line_number e = n ->
        exists l ts cat lvl,
          nth_error lines (n - 1) = Some l
          /\ header_shape l ts cat lvl
          /\ Standalone.timestamp e = Some ts
          /\ Standalone.category e = Some cat
          /\ Standalone.level e = Some lvl)
  /\ (forall ts ws cat other rest,
        no_rbracket ts -> all_space ws -> no_rbracket cat ->
        no_rbracket other -> no_slash other -> ~ is_level other ->
        1 <= n ->
        nth_error lines (n - 1) = Some (header_text ts ws cat other ++ rest) ->
        ~ (exists e, In e (Standalone.segment lines)
                     /\ Standalone.line_number e = n)
        /\ ~ (exists e, In e (Tooling.segment lines)
                        /\ Tooling.line_number e = n)).
Proof.
  split; [apply standalone_opens_iff|]. split; [apply tooling_opens_iff|].
  split; [apply standalone_entry_fields|].
  intros ts ws cat other rest Fts Fws Fcat Fo So No Hn Hl.
  rewrite standalone_opens_iff, tooling_opens_iff.
  assert (H : ~ header_at lines n).
  { intros [l [ts' [cat' [lvl' [_ [Hl' Hs]]]]]].
    rewrite Hl in Hl'. injection Hl' as <-.
    revert Hs. now apply other_level_no_header. }
  tauto.
Qed.

Lemma header_lines_open_entries_witness :
  (exists e, In e (Standalone.segment info_then_warn)
             /\ Standalone.line_number e = 2)
  /\ ~ (exists e, In e (Standalone.segment info_then_warn)
                  /\ Standalone.line_number e = 1).
Proof.
  split.
  - apply (proj1 (header_lines_open_entries info_then_warn 2)).
    exists (pystr "[12:00:05] [Server/WARN] test"),
           (pystr "12:00:05"), (pystr "Server"), (pystr "WARN").
    split; [lia|]. split; [reflexivity|].
    exists (pystr " "), (pystr " test").
    split; [reflexivity|]. split; [discriminate|].
    split; [repeat constructor|]. split; [repeat constructor|].
    split; [discriminate|]. split; [repeat constructor|].
    left. reflexivity.
  - apply (proj2 (proj2 (proj2 (header_lines_open_entries info_then_warn 1)))
             (pystr "12:00:00") (pystr " ") (pystr "Server") (pystr "INFO")
             (pystr " up")).
    + repeat constructor.
    + repeat constructor.
    + repeat constructor.
    + repeat constructor.
    + repeat constructor.
    + intros [H | [H | H]]; discriminate H.
    + lia.
    + reflexivity.
Defined.

(** ** The category and the level *)

Lemma standalone_single_header line ts cat lvl :
  header_shape line ts cat lvl ->
  Standalone.segment [line]
  = [{| Standalone.line_number := 1;
        Standalone.timestamp := Some ts;
        Standalone.category := Some cat;
        Standalone.level := Some lvl;
        Standalone.content := [rstrip line] |}].
Proof.
  intros H.
  cbv [Standalone.segment Standalone.parse_lines Standalone.for_loop
       Standalone.loop_body].
  now rewrite (header_shape_match H).
Qed.

Lemma tooling_single_header line ts cat lvl :
  header_shape line ts cat lvl ->
  Tooling.segment [line]
  = [{| Tooling.line_number := 1;
        Tooling.timestamp := Some ts;
        Tooling.thread_category := Some cat;
        Tooling.level := Some lvl;
        Tooling.content := [rstrip line];
        Tooling.is_biomepruner := tag_matches (rstrip line) |}].
Proof.
  intros H.
  cbv [Tooling.segment Tooling.parse_lines Tooling.for_loop
       Tooling.loop_body].
  rewrite log_pattern_match_rstrip.
  now rewrite (header_shape_match H).
Qed.

(** C10. In a header line the second bracketed span, which holds no closing
    bracket, is read as [cat/lvl] with [lvl] one of the three levels: the
    captured category is all of the span before the slash that the level
    follows, slashes and level names included, and the captured level is
    the text after that slash.  The level holds no slash, so this is the
    last slash of the span.  So [\[t\] \[A/B/WARN\]] gives the category
    [A/B] with level [WARN], and [\[t\] \[A/WARN/FATAL\]] gives [A/WARN] with
    level [FATAL]. *)
Theorem category_ends_at_last_slash :
  (forall line ts cat lvl,
      header_shape line ts cat lvl ->
      (exists m, re_match log_pattern line = Some m
                 /\ group m 1 = Some ts
                 /\ group m 2 = Some cat
                 /\ group m 3 = Some lvl)
      /\ no_slash lvl
      /\ (exists e, Standalone.segment [line] = [e]
                    /\ Standalone.category e = Some cat
                    /\ Standalone.level e = Some lvl)
      /\ (exists e, Tooling.segment [line] = [e]
                    /\ Tooling.thread_category e = Some cat
                    /\ Tooling.level e = Some lvl))
  /\ Standalone.segment [pystr "[t] [A/B/WARN]"]
     = [{| Standalone.line_number := 1;
           Standalone.timestamp := Some (pystr "t");
           Standalone.category := Some (pystr "A/B");
           Standalone.level := Some (pystr "WARN");
           Standalone.content := [pystr "[t] [A/B/WARN]"] |}]
  /\ Standalone.segment [pystr "[t] [A/WARN/FATAL]"]
     = [{| Standalone.line_number := 1;
           Standalone.timestamp := Some (pystr "t");
           Standalone.category := Some (pystr "A/WARN");
           Standalone.level := Some (pystr "FATAL");
           Standalone.content := [pystr "[t] [A/WARN/FATAL]"] |}].
Proof.
  split; [|split; reflexivity].
  intros line ts cat lvl H. split; [|split; [|split]].
  - exists (header_groups ts cat lvl).
    split; [now apply header_shape_match|]. repeat split.
  - destruct H as [ws [rest [_ [_ [_ [_ [_ [_ L]]]]]]]].
    now apply is_level_no_slash.
  - eexists. split; [apply (standalone_single_header H)|]. split; reflexivity.
  - eexists. split; [apply (tooling_single_header H)|]. split; reflexivity.
Qed.

Lemma category_ends_at_last_slash_witness :
  exists e, Tooling.segment [pystr "[t]  [net/A/ERROR/WARN] x"] = [e]
            /\ Tooling.thread_category e = Some (pystr "net/A/ERROR")
            /\ Tooling.level e = Some (pystr "WARN").
Proof.
  apply (proj1 category_ends_at_last_slash
           (pystr "[t]  [net/A/ERROR/WARN] x")
           (pystr "t") (pystr "net/A/ERROR") (pystr "WARN")).
  exists (pystr "  "), (pystr " x").
  split; [reflexivity|]. split; [discriminate|].
  split; [repeat constructor|]. split; [repeat constructor|].
  split; [discriminate|]. split; [repeat constructor|].
  left. reflexivity.
Defined.

(** ** End of input *)

Lemma not_bracketed_continues c :
  startswith OPEN c = false ->
  re_match log_pattern c = None /\ is_boundary c = false.
Proof.
  intros H. split.
  - apply log_pattern_match_none. intros ts cat lvl [ws [rest [E _]]].
    assert (S : startswith OPEN c = true).
    { apply startswith_iff. rewrite E. unfold header_text.
      rewrite <- app_assoc. eauto. }
    congruence.
  - unfold is_boundary. now rewrite H.
Qed.

(** C8. When the input ends while an entry is open, that entry is appended
    to the output.  In particular a header line, two lines that do not
    begin with a bracket, and then the end of the input give exactly one
    entry, with the three lines as its content. *)
Theorem open_entry_closed_at_end :
  (forall lines es0 es e,
      Standalone.for_loop 0 lines es0 None = (es, Some e) ->
      Standalone.parse_lines lines es0 = es ++ [e])
  /\ (forall h c1 c2,
        is_header h = true ->
        startswith OPEN c1 = false -> startswith OPEN c2 = false ->
        exists e,
          Standalone.segment [h; c1; c2] = [e]
          /\ Standalone.line_number e = 1
          /\ Standalone.content e = [rstrip h; rstrip c1; rstrip c2]
          /\ length (Standalone.content e) = 3).
Proof.
  split.
  - intros lines es0 es e H. unfold Standalone.parse_lines. cbv zeta.
    now rewrite H.
  - intros h c1 c2 Hh H1 H2. unfold is_header in Hh.
    destruct (re_match log_pattern h) as [m|] eqn:Em; [|discriminate].
    destruct (not_bracketed_continues _ H1) as [M1 B1].
    destruct (not_bracketed_continues _ H2) as [M2 B2].
    unfold is_boundary in B1, B2.
    cbv [Standalone.segment Standalone.parse_lines Standalone.for_loop
         Standalone.loop_body].
    rewrite Em. cbn [fst snd]. rewrite M1, B1. cbn [fst snd].
    rewrite M2, B2. cbn [fst snd Standalone.save app].
    eexists. split; [reflexivity|]. repeat split.
Qed.

Lemma open_entry_closed_at_end_witness :
  exists e,
    Standalone.segment
      [pystr "[12:00:00] [Server/ERROR] boom"; pystr "  at a.b.C";
       pystr "  at d.e.F"] = [e]
    /\ Standalone.line_number e = 1
    /\ Standalone.content e
       = [rstrip (pystr "[12:00:00] [Server/ERROR] boom");
          rstrip (pystr "  at a.b.C"); rstrip (pystr "  at d.e.F")]
    /\ length (Standalone.content e) = 3.
Proof.
  apply (proj2 open_entry_closed_at_end); reflexivity.
Defined.

(** ** Boundary lines *)

Lemma standalone_for_loop_app a b : forall i es cur,
  Standalone.for_loop i (a ++ b) es cur
  = Standalone.for_loop (i + length a) b
      (fst (Standalone.for_loop i a es cur))
      (snd (Standalone.for_loop i a es cur)).
Proof.
  induction a as [|l a IH]; intros i es cur.
  - simpl. now rewrite Nat.add_0_r.
  - cbn [app Standalone.for_loop length]. rewrite IH. f_equal. lia.
Qed.

(** What the content of an entry is made of. *)
Lemma content_text_kind lines e c :
  In e (Standalone.segment lines) -> In c (Standalone.content e) ->
  is_header c = true \/ continues c = true.
Proof.
  rewrite StandaloneFacts.segment_entries. intros He Hc.
  apply In_nth_error in Hc as [j Hj].
  destruct (StandaloneFacts.content_lines _ _ He _ Hj) as [l [_ [-> [H0 H1]]]].
  rewrite is_header_rstrip, continues_rstrip.
  destruct j; [left; auto | right; apply H1; lia].
Qed.

(** The line at a place an entry holds is its header or continues it. *)
Lemma held_line_kind lines e p l :
  In e (Standalone.segment lines) -> holds_line e p ->
  nth_error lines (p - 1) = Some l ->
  is_header l = true \/ continues l = true.
Proof.
  rewrite StandaloneFacts.segment_entries. intros He [P1 P2] Hl.
  destruct (StandaloneFacts.content_block _ _ He) as [L1 _].
  destruct (nth_error (Standalone.content e) (p - Standalone.line_number e))
    as [c|] eqn:Ec.
  - destruct (StandaloneFacts.content_lines _ _ He _ Ec) as [l' [Hl' [_ [H0 H1]]]].
    replace (Standalone.line_number e - 1 + (p - Standalone.line_number e))
      with (p - 1) in Hl' by lia.
    rewrite Hl in Hl'. injection Hl' as <-.
    destruct (p - Standalone.line_number e); [left; auto | right; apply H1; lia].
  - apply nth_error_None in Ec. lia.
Qed.

(** C2. When an entry is open and the next line is no header but begins
    with a bracket and contains [\] \[], the loop appends the open entry to
    the output and leaves no entry open; the entry stays in the output as
    it was; and the line is at no place that an entry of the output holds,
    its text is in no content, and no entry starts at it. *)
Theorem boundary_line_closes_entry
    (before after : list str) (line : str)
    (es : list Standalone.entry) (e : Standalone.entry) :
  Standalone.for_loop 0 before [] None = (es, Some e) ->
  is_header line = false ->
  startswith OPEN line = true -> contains CLOSE_OPEN line = true ->
  Standalone.for_loop 0 (before ++ [line]) [] None = (es ++ [e], None)
  /\ (exists later,
         Standalone.segment (before ++ line :: after) = es ++ e :: later)
  /\ (forall e',
         In e' (Standalone.segment (before ++ line :: after)) ->
         ~ holds_line e' (length before + 1)
         /\ Standalone.line_number e' <> length before + 1
         /\ ~ In (rstrip line) (Standalone.content e')
         /\ ~ In line (Standalone.content e')).
Proof.
  intros Hopen Hh Hs Hc.
  assert (Hb : is_boundary line = true) by (unfold is_boundary; now rewrite Hs, Hc).
  assert (Hm : re_match log_pattern line = None).
  { unfold is_header in Hh. now destruct (re_match log_pattern line). }
  assert (Hk : continues line = false).
  { unfold continues. now rewrite Hb, andb_false_r. }
  assert (Hbody : forall i, Standalone.loop_body i line es (Some e)
                            = (es ++ [e], None)).
  { intros i. unfold Standalone.loop_body. now rewrite Hm, Hs, Hc. }
  split; [|split].
  - rewrite standalone_for_loop_app, Hopen.
    cbn [fst snd Standalone.for_loop]. now rewrite Hbody.
  - exists (StandaloneAux.entries_from (S (length before)) after).
    unfold Standalone.segment, Standalone.parse_lines. cbv zeta.
    rewrite standalone_for_loop_app, Hopen.
    cbn [fst snd Standalone.for_loop]. rewrite !Hbody. cbn [fst snd].
    rewrite StandaloneFacts.for_loop_entries. cbn [app].
    now rewrite <- app_assoc.
  - intros e' He'.
    assert (Hl : nth_error (before ++ line :: after) (length before + 1 - 1)
                 = Some line).
    { rewrite Nat.add_sub, nth_error_app2, Nat.sub_diag by lia. reflexivity. }
    assert (Hno : ~ holds_line e' (length before + 1)).
    { intros Hp. destruct (held_line_kind _ He' Hp Hl); congruence. }
    split; [exact Hno|]. split; [|split].
    + intros E. apply Hno. unfold holds_line. rewrite E.
      rewrite StandaloneFacts.segment_entries in He'.
      destruct (StandaloneFacts.content_block _ _ He') as [_ [Hne _]].
      destruct (Standalone.content e'); [contradiction|]. simpl. lia.
    + intros Hin. destruct (content_text_kind _ _ _ He' Hin) as [H|H].
      * rewrite is_header_rstrip in H. congruence.
      * rewrite continues_rstrip in H. congruence.
    + intros Hin. destruct (content_text_kind _ _ _ He' Hin); congruence.
Qed.

Lemma boundary_line_closes_entry_witness :
  let before := [pystr "[12:00:00] [Server/WARN] test"] in
  let line := pystr "[12:00:05] [Server/INFO] up" in
  let after := [pystr "lost"] in
  Standalone.for_loop 0 (before ++ [line]) [] None = ([] ++ [warn_entry], None)
  /\ (exists later,
         Standalone.segment (before ++ line :: after)
         = [] ++ warn_entry :: later)
  /\ (forall e',
         In e' (Standalone.segment (before ++ line :: after)) ->
         ~ holds_line e' (length before + 1)
         /\ Standalone.line_number e' <> length before + 1
         /\ ~ In (rstrip line) (Standalone.content e')
         /\ ~ In line (Standalone.content e')).
Proof.
  intros before line after.
  apply (@boundary_line_closes_entry before after line [] warn_entry);
    reflexivity.
Defined.

(** ** Order and overlap *)

Lemma map_rstrip_id lines :
  Forall (fun l => rstrip l = l) lines -> map rstrip lines = lines.
Proof.
  induction 1 as [|l ls Hl F IH]; simpl; [reflexivity|]. now rewrite Hl, IH.
Qed.

(** C3. The content of every entry is a block of consecutive input lines,
    each stored with its trailing whitespace stripped, that starts at the
    line number of the entry; the entries come in the order of the file and
    each starts after the last line of the one before it; no line is held
    by two entries; so the contents, one after the other, are the stripped
    input lines with some left out, in the order of the input, and they are
    the input lines themselves when no line ends in whitespace. *)
Theorem contents_in_order_without_overlap (lines : list str) :
  (forall e, In e (Standalone.segment lines) ->
             1 <= Standalone.line_number e
             /\ Standalone.content e <> []
             /\ Standalone.content e
                = map rstrip
                    (firstn (length (Standalone.content e))
                       (skipn (Standalone.line_number e - 1) lines)))
  /\ ordered_from 0 (Standalone.segment lines)
  /\ (forall e1 e2 p,
         In e1 (Standalone.segment lines) ->
         In e2 (Standalone.segment lines) ->
         holds_line e1 p -> holds_line e2 p -> e1 = e2)
  /\ subsequence (concat (map Standalone.content (Standalone.segment lines)))
                 (map rstrip lines)
  /\ (Forall (fun l => rstrip l = l) lines ->
      subsequence (concat (map Standalone.content (Standalone.segment lines)))
                  lines).
Proof.
  rewrite StandaloneFacts.segment_entries.
  assert (Ho : ordered_from 0 (StandaloneAux.entries_from 0 lines))
    by (eapply StandaloneFacts.entries_from_ordered; reflexivity).
  assert (Hs : subsequence
                 (concat (map Standalone.content
                            (StandaloneAux.entries_from 0 lines)))
                 (map rstrip lines))
    by (eapply StandaloneFacts.entries_from_subsequence; reflexivity).
  split; [|split; [|split; [|split]]].
  - intros e He. now apply StandaloneFacts.content_block.
  - exact Ho.
  - intros e1 e2 p. now apply StandaloneFacts.ordered_from_disjoint with (lo := 0).
  - exact Hs.
  - intros F. now rewrite (map_rstrip_id F) in Hs.
Qed.

Lemma contents_in_order_without_overlap_witness :
  subsequence
    (concat (map Standalone.content
               (Standalone.segment
                  [pystr "up"; pystr "[t] [A/WARN] x"; pystr "  at y";
                   pystr "[t] [A/INFO] z"; pystr "lost"])))
    [pystr "up"; pystr "[t] [A/WARN] x"; pystr "  at y";
     pystr "[t] [A/INFO] z"; pystr "lost"].
Proof.
  apply (proj2 (proj2 (proj2 (proj2
           (contents_in_order_without_overlap
              [pystr "up"; pystr "[t] [A/WARN] x"; pystr "  at y";
               pystr "[t] [A/INFO] z"; pystr "lost"]))))).
  repeat constructor.
Defined.

(** ** State between calls *)

(** A second [parse_log] on the same parser object and the same file does
    not give the entries of the first. *)
Lemma second_parse_log_differs :
  exists p1 p2,
    Standalone.parse_log one_warning (Standalone.init (pystr "latest.log"))
    = Ret (true, p1)
    /\ Standalone.parse_log one_warning p1 = Ret (true, p2)
    /\ length (Standalone.entries p1) = 1
    /\ length (Standalone.entries p2) = 2
    /\ Standalone.entries p2 <> Standalone.entries p1.
Proof.
  eexists. eexists. split; [reflexivity|]. split; [reflexivity|].
  split; [reflexivity|]. split; [reflexivity|]. discriminate.
Qed.

(** C4 (amended). [parse_log] is a function of the file and of the parser
    object it is called on: it appends the entries of the lines read to
    [self.entries].  On a new parser object the entries afterwards are
    those of the lines alone, the same at every run.  The object keeps its
    entries between calls, so a second call on the same object and the
    same file leaves the entries of the first call followed by the same
    entries once more. *)
Theorem parse_log_appends
    (fs : filesystem) (self : Standalone.parser) (lines : list str) :
  fs (Standalone.log_path self) = Readable lines ->
  exists p1 p2,
    Standalone.parse_log fs self = Ret (true, p1)
    /\ Standalone.entries p1
       = Standalone.entries self ++ Standalone.segment lines
    /\ (Standalone.entries self = [] ->
        Standalone.entries p1 = Standalone.segment lines)
    /\ Standalone.parse_log fs p1 = Ret (true, p2)
    /\ Standalone.entries p2
       = Standalone.entries self
         ++ Standalone.segment lines ++ Standalone.segment lines.
Proof.
  intros Hf.
  assert (P : forall p, Standalone.log_path p = Standalone.log_path self ->
                Standalone.parse_log fs p
                = Ret (true,
                       {| Standalone.log_path := Standalone.log_path p;
                          Standalone.entries :=
                            Standalone.entries p
                            ++ Standalone.segment lines |})).
  { intros p Hp. unfold Standalone.parse_log, path_exists, open_readlines.
    rewrite Hp, Hf. cbn [negb try_except].
    now rewrite StandaloneFacts.parse_lines_entries,
                StandaloneFacts.segment_entries. }
  eexists. eexists. split; [apply P; reflexivity|]. cbn [Standalone.entries].
  split; [reflexivity|]. split; [now intros ->|].
  split; [rewrite P by reflexivity; reflexivity|].
  cbn [Standalone.entries]. now rewrite <- app_assoc.
Qed.

Lemma parse_log_appends_witness :
  exists p1 p2,
    Standalone.parse_log one_warning (Standalone.init (pystr "latest.log"))
    = Ret (true, p1)
    /\ Standalone.entries p1
       = [] ++ Standalone.segment [pystr "[12:00:00] [Server/WARN] test"]
    /\ (Standalone.entries (Standalone.init (pystr "latest.log")) = [] ->
        Standalone.entries p1
        = Standalone.segment [pystr "[12:00:00] [Server/WARN] test"])
    /\ Standalone.parse_log one_warning p1 = Ret (true, p2)
    /\ Standalone.entries p2
       = [] ++ Standalone.segment [pystr "[12:00:00] [Server/WARN] test"]
         ++ Standalone.segment [pystr "[12:00:00] [Server/WARN] test"].
Proof.
  apply (@parse_log_appends one_warning
           (Standalone.init (pystr "latest.log"))
           [pystr "[12:00:00] [Server/WARN] test"]).
  reflexivity.
Defined.

(** ** Failures *)




(** ** The tag *)

Lemma In_scan lines : forall i msg,
  In msg (ToolingAux.scan i lines) <->
  exists k l,
    nth_error lines k = Some l /\ tag_matches l = true
    /\ msg = {| Tooling.msg_line_number := i + k + 1;
                Tooling.msg_content := rstrip l |}.
Proof.
  induction lines as [|x rest IH]; intros i msg.
  - simpl. split; [intros [] | intros [[|k] [l [H _]]]; discriminate].
  - cbn [ToolingAux.scan]. rewrite tag_matches_rstrip.
    assert (Htail : In msg (ToolingAux.scan (S i) rest) <->
                    exists k l,
                      nth_error (x :: rest) (S k) = Some l
                      /\ tag_matches l = true
                      /\ msg = {| Tooling.msg_line_number := i + S k + 1;
                                  Tooling.msg_content := rstrip l |}).
    { rewrite IH. split; intros [k [l [H1 [H2 H3]]]]; exists k, l;
        (split; [exact H1 | split; [exact H2|]]);
        rewrite H3; f_equal; lia. }
    destruct (tag_matches x) eqn:Ex.
    + cbn [In]. rewrite Htail. split.
      * intros [<- | [k [l H]]].
        -- exists 0, x. rewrite Nat.add_0_r. auto.
        -- now exists (S k), l.
      * intros [[|k] [l [H1 [H2 H3]]]].
        -- left. simpl in H1. injection H1 as <-.
           rewrite Nat.add_0_r in H3. now symmetry.
        -- right. now exists k, l.
    + rewrite Htail. split.
      * intros [k [l H]]. now exists (S k), l.
      * intros [[|k] [l [H1 [H2 H3]]]].
        -- simpl in H1. injection H1 as <-. congruence.
        -- now exists k, l.
Qed.

Lemma tagged_lines_scan lines :
  Tooling.tagged_lines lines = ToolingAux.scan 0 lines.
Proof.
  unfold Tooling.tagged_lines, Tooling.parse_lines. cbv zeta. cbn [snd].
  now rewrite ToolingFacts.for_loop_messages.
Qed.

(** C6. In the tooling copy the lines that contain the tag, whatever the
    case of its letters, are collected apart from the entries, in the
    order of the file, each with its line number counted from 1 and its
    text stripped at the end.  The scan is a filter over all the input
    lines and nothing else: whether a line is a header, a continuation, a
    boundary or passed over plays no part. *)
Theorem tag_scan_covers_all_lines (lines : list str) :
  Tooling.tagged_lines lines
  = map (fun nl => {| Tooling.msg_line_number := fst nl;
                      Tooling.msg_content := rstrip (snd nl) |})
      (filter (fun nl => tag_matches (snd nl))
         (combine (seq 1 (length lines)) lines))
  /\ (forall l, tag_matches l = true <-> contains_ignorecase TAG l)
  /\ (forall n c,
         In {| Tooling.msg_line_number := n; Tooling.msg_content := c |}
            (Tooling.tagged_lines lines)
         <-> exists l,
               1 <= n /\ nth_error lines (n - 1) = Some l
               /\ contains_ignorecase TAG l /\ c = rstrip l).
Proof.
  split; [|split].
  - rewrite tagged_lines_scan. apply ToolingFacts.scan_filter.
  - apply tag_matches_iff.
  - intros n c. rewrite tagged_lines_scan, In_scan. split.
    + intros [k [l [Hl [Ht E]]]]. injection E as -> ->. exists l.
      split; [lia|]. split; [|split; [now apply tag_matches_iff | reflexivity]].
      now replace (k + 1 - 1) with k by lia.
    + intros [l [Hn [Hl [Ht ->]]]]. exists (n - 1), l.
      split; [exact Hl|]. split; [now apply tag_matches_iff|].
      f_equal. lia.
Qed.

(** The entries of the tooling copy, as those of the first copy. *)
Lemma tooling_content_lines lines e :
  In e (Tooling.segment lines) ->
  forall j c,
    nth_error (Tooling.content e) j = Some c ->
    exists l,
      nth_error lines (Tooling.line_number e - 1 + j) = Some l
      /\ c = rstrip l
      /\ (j = 0 -> is_header l = true)
      /\ (0 < j -> continues l = true).
Proof.
  intros He j c Hc.
  apply (in_map ToolingAux.forget) in He.
  rewrite ToolingFacts.segment_forget, StandaloneFacts.segment_entries in He.
  exact (StandaloneFacts.content_lines _ _ He _ Hc).
Qed.

(** C7. In the tooling copy the flag of an entry is set exactly when the
    tag, whatever the case of its letters, is in one of the input lines
    that make up its content: the header line that opened the entry or a
    line appended to it later.  These are the only lines of the content,
    and a line that ends an entry as a boundary is none of them. *)
Theorem flag_iff_tag_in_entry_lines (lines : list str) (e : Tooling.entry) :
  In e (Tooling.segment lines) ->
  Tooling.is_biomepruner e = existsb tag_matches (Tooling.content e)
  /\ (Tooling.is_biomepruner e = true <->
      exists j l,
        j < length (Tooling.content e)
        /\ nth_error lines (Tooling.line_number e - 1 + j) = Some l
        /\ contains_ignorecase TAG l)
  /\ (forall j c,
         nth_error (Tooling.content e) j = Some c ->
         exists l,
           nth_error lines (Tooling.line_number e - 1 + j) = Some l
           /\ c = rstrip l
           /\ (j = 0 -> is_header l = true)
           /\ (0 < j -> continues l = true))
  /\ (forall j l,
         j < length (Tooling.content e) ->
         nth_error lines (Tooling.line_number e - 1 + j) = Some l ->
         is_header l = false -> is_boundary l = false).
Proof.
  intros He.
  pose proof (ToolingFacts.segment_flag_ok _ _ He) as Hf.
  unfold ToolingAux.flag_ok in Hf.
  pose proof (@tooling_content_lines lines e He) as Hc.
  split; [exact Hf|]. split; [|split; [exact Hc|]].
  - rewrite Hf, existsb_exists. split.
    + intros [c [Hin Ht]]. apply In_nth_error in Hin as [j Hj].
      destruct (Hc _ _ Hj) as [l [Hl [-> _]]].
      exists j, l. split; [|split; [exact Hl|]].
      * apply nth_error_Some. congruence.
      * apply tag_matches_iff. now rewrite <- tag_matches_rstrip.
    + intros [j [l [Hj [Hl Ht]]]].
      destruct (nth_error (Tooling.content e) j) as [c|] eqn:Ec.
      * destruct (Hc _ _ Ec) as [l' [Hl' [-> _]]].
        rewrite Hl in Hl'. injection Hl' as <-.
        exists (rstrip l). split; [now apply nth_error_In in Ec|].
        rewrite tag_matches_rstrip. now apply tag_matches_iff.
      * apply nth_error_None in Ec. lia.
  - intros j l Hj Hl Hh.
    destruct (nth_error (Tooling.content e) j) as [c|] eqn:Ec.
    + destruct (Hc _ _ Ec) as [l' [Hl' [_ [H0 H1]]]].
      rewrite Hl in Hl'. injection Hl' as <-.
      destruct j as [|j]; [rewrite H0 in Hh by reflexivity; discriminate|].
      assert (K : continues l = true) by (apply H1; lia).
      unfold continues in K. apply andb_true_iff in K as [_ K].
      now apply negb_true_iff in K.
    + apply nth_error_None in Ec. lia.
Qed.

(** ** The three copies *)

(** C9. On the same lines the three copies give the same entries: as many,
    and one for one with the same line number, timestamp, category, level
    and content.  The tooling copy strips each line before it tests it;
    that changes nothing, since a header match and a boundary both end in
    a character that is not whitespace. *)
Theorem three_copies_agree (lines : list str) :
  map tooling_fields (Tooling.segment lines)
  = map standalone_fields (Standalone.segment lines)
  /\ map testrunner_fields (TestRunner.segment lines)
     = map standalone_fields (Standalone.segment lines)
  /\ length (Tooling.segment lines) = length (Standalone.segment lines)
  /\ length (TestRunner.segment lines) = length (Standalone.segment lines)
  /\ (forall line,
         re_match log_pattern (rstrip line) = re_match log_pattern line
         /\ is_boundary (rstrip line) = is_boundary line).
Proof.
  assert (H1 : map tooling_fields (Tooling.segment lines)
               = map standalone_fields (Standalone.segment lines)).
  { rewrite <- ToolingFacts.segment_forget, map_map. reflexivity. }
  assert (H2 : map testrunner_fields (TestRunner.segment lines)
               = map standalone_fields (Standalone.segment lines)).
  { rewrite <- TestRunnerFacts.segment_to_standalone, map_map. reflexivity. }
  split; [exact H1|]. split; [exact H2|]. split; [|split].
  - apply (f_equal (@length fields)) in H1. now rewrite !length_map in H1.
  - apply (f_equal (@length fields)) in H2. now rewrite !length_map in H2.
  - intros line. split;
      [apply log_pattern_match_rstrip | apply is_boundary_rstrip].
Qed.

Lemma flag_iff_tag_in_entry_lines_witness :
  In tagged_entry (Tooling.segment tagged_log)
  /\ Tooling.is_biomepruner tagged_entry
     = existsb tag_matches (Tooling.content tagged_entry).
Proof.
  assert (H : In tagged_entry (Tooling.segment tagged_log)) by (left; reflexivity).
  split; [exact H|].
  exact (proj1 (@flag_iff_tag_in_entry_lines tagged_log tagged_entry H)).
Defined.


(** * Properties of the functions around [parse_log] *)

(** ** Strings as keys *)

Lemma str_eqb_eq (a b : str) : str_eqb a b = true <-> a = b.
Proof.
  revert b; induction a as [|x a IH]; intros [|y b]; simpl;
    try (split; [discriminate | discriminate]); [tauto|].
  rewrite andb_true_iff, N.eqb_eq, IH. split.
  - intros [-> ->]. reflexivity.
  - intros E. injection E as -> ->. auto.
Qed.

Lemma str_eqb_refl (a : str) : str_eqb a a = true.
Proof. now apply str_eqb_eq. Qed.

Lemma str_eqb_neq (a b : str) : str_eqb a b = false <-> a <> b.
Proof.
  rewrite <- str_eqb_eq. destruct (str_eqb a b); split; congruence.
Qed.

Lemma key_eqb_eq (a b : option str) : Reports.key_eqb a b = true <-> a = b.
Proof.
  destruct a as [x|], b as [y|]; simpl; try (split; congruence).
  rewrite str_eqb_eq. split; congruence.
Qed.

Lemma key_eqb_refl (a : option str) : Reports.key_eqb a a = true.
Proof. now apply key_eqb_eq. Qed.

(** ** What a new parser object holds after [parse_log] *)

Lemma tooling_parse_log_new fs path p :
  Tooling.parse_log fs (Tooling.init path) = Ret (true, p) ->
  exists lines,
    fs path = Readable lines
    /\ Tooling.entries p = Tooling.segment lines
    /\ Tooling.biomepruner_messages p = Tooling.tagged_lines lines.
Proof.
  unfold Tooling.parse_log, path_exists, open_readlines. simpl.
  destruct (fs path) as [| | |lines]; simpl; try discriminate.
  intros E. injection E as <-. exists lines. auto.
Qed.

Lemma tooling_level_known lines e :
  In e (Tooling.segment lines) ->
  exists lvl, Tooling.level e = Some lvl /\ is_level lvl.
Proof.
  intros He. apply (in_map ToolingAux.forget) in He.
  rewrite ToolingFacts.segment_forget in He.
  destruct (@standalone_entry_fields lines _ _ He eq_refl)
    as [l [ts [cat [lvl [_ [Hs [_ [_ Hl]]]]]]]].
  exists lvl. split; [exact Hl|].
  now destruct Hs as [ws [rest [_ [_ [_ [_ [_ [_ L]]]]]]]].
Qed.

Lemma entries_from_length lines : forall i,
  length (StandaloneAux.entries_from i lines) = length (filter is_header lines).
Proof.
  induction lines as [|l rest IH]; intros i; [reflexivity|].
  cbn [StandaloneAux.entries_from filter]. unfold is_header at 1.
  destruct (re_match log_pattern l); cbn [truthy length]; now rewrite IH.
Qed.

Lemma scan_length lines : forall i,
  length (ToolingAux.scan i lines) = length (filter tag_matches lines).
Proof.
  induction lines as [|l rest IH]; intros i; [reflexivity|].
  cbn [ToolingAux.scan filter]. rewrite tag_matches_rstrip.
  destruct (tag_matches l); cbn [length]; now rewrite IH.
Qed.

(** ** The counts of [export_json] *)

Lemma level_counts_add_up (es : list Tooling.entry) :
  Forall (fun e => exists lvl, Tooling.level e = Some lvl /\ is_level lvl) es ->
  length (filter (Reports.level_is (pystr "WARN")) es)
  + length (filter (Reports.level_is (pystr "ERROR")) es)
  + length (filter (Reports.level_is (pystr "FATAL")) es)
  = length es.
Proof.
  induction 1 as [|e es [lvl [Hl L]] F IH]; [reflexivity|].
  cbn [filter].
  assert (K : forall x, Reports.level_is x e = str_eqb lvl x).
  { intros x. unfold Reports.level_is. now rewrite Hl. }
  rewrite !K.
  destruct L as [-> | [-> | ->]]; eval_str_eqb; cbn [length]; lia.
Qed.

(** The tag flag of the entries never outnumbers the tagged lines. *)
Lemma loop_body_flagged i l st :
  length (filter Tooling.is_biomepruner
            (Tooling.save (Tooling.st_entries (Tooling.loop_body i l st))
                          (Tooling.st_current (Tooling.loop_body i l st))))
  + length (Tooling.st_messages st)
  <= length (filter Tooling.is_biomepruner
               (Tooling.save (Tooling.st_entries st) (Tooling.st_current st)))
     + length (Tooling.st_messages (Tooling.loop_body i l st)).
Proof.
  rewrite ToolingFacts.loop_body_messages, length_app.
  unfold Tooling.loop_body. cbv zeta. cbn [ToolingAux.scan].
  fold (tag_matches (rstrip l)). fold (is_boundary (rstrip l)).
  destruct (re_match log_pattern (rstrip l)) as [m|].
  - cbn [Tooling.st_entries Tooling.st_current Tooling.save].
    rewrite filter_app, length_app. cbn [filter Tooling.is_biomepruner].
    destruct (tag_matches (rstrip l)); cbn [length]; lia.
  - destruct (Tooling.st_current st) as [e|].
    + destruct (is_boundary (rstrip l));
        cbn [Tooling.st_entries Tooling.st_current Tooling.save];
        rewrite ?filter_app, ?length_app;
        cbn [filter Tooling.is_biomepruner Tooling.content_append].
      * lia.
      * fold (tag_matches (rstrip l)).
        destruct (tag_matches (rstrip l)), (Tooling.is_biomepruner e);
          cbn [length]; lia.
    + cbn [Tooling.st_entries Tooling.st_current Tooling.save]. lia.
Qed.

Lemma for_loop_flagged lines : forall i st,
  length (filter Tooling.is_biomepruner
            (Tooling.save (Tooling.st_entries (Tooling.for_loop i lines st))
                          (Tooling.st_current (Tooling.for_loop i lines st))))
  + length (Tooling.st_messages st)
  <= length (filter Tooling.is_biomepruner
               (Tooling.save (Tooling.st_entries st) (Tooling.st_current st)))
     + length (Tooling.st_messages (Tooling.for_loop i lines st)).
Proof.
  induction lines as [|l rest IH]; intros i st; [simpl; lia|].
  cbn [Tooling.for_loop].
  pose proof (IH (S i) (Tooling.loop_body i l st)).
  pose proof (loop_body_flagged i l st). lia.
Qed.

(** X1. In the summary of [export_json], for a new parser object after
    [parse_log]: the counts of the three levels add up to the total of the
    entries, which is the number of header lines of the log; the tagged
    lines are counted too; and the entries with the tag flag are no more
    than the tagged lines. *)
Theorem export_json_summary_consistent
    (fs : filesystem) (path name now : str) (p : Tooling.parser) :
  Tooling.parse_log fs (Tooling.init path) = Ret (true, p) ->
  let s := Reports.summary (Reports.export_json name now p) in
  exists lines,
    fs path = Readable lines
    /\ list_sum (map snd (Reports.level_breakdown s))
       = Reports.total_errors_warnings s
    /\ Reports.total_errors_warnings s = length (filter is_header lines)
    /\ Reports.total_biomepruner_messages s
       = length (filter tag_matches lines)
    /\ Reports.biomepruner_errors_warnings s
       <= Reports.total_biomepruner_messages s
    /\ Reports.biomepruner_errors_warnings s
       <= Reports.total_errors_warnings s.
Proof.
  intros H s.
  destruct (@tooling_parse_log_new fs path p H) as [lines [Hf [He Hm]]].
  exists lines. split; [exact Hf|]. subst s.
  cbn [Reports.summary Reports.export_json Reports.level_breakdown
       Reports.total_errors_warnings Reports.total_biomepruner_messages
       Reports.biomepruner_errors_warnings map snd list_sum].
  rewrite He, Hm. split; [|split; [|split; [|split]]].
  - unfold list_sum. cbn [fold_right].
    rewrite Nat.add_0_r, Nat.add_assoc. apply level_counts_add_up.
    apply Forall_forall. intros e. apply tooling_level_known.
  - rewrite <- (length_map ToolingAux.forget), ToolingFacts.segment_forget.
    rewrite StandaloneFacts.segment_entries. apply entries_from_length.
  - rewrite tagged_lines_scan. apply scan_length.
  - unfold Tooling.segment, Tooling.tagged_lines, Tooling.parse_lines.
    cbv zeta. cbn [fst snd].
    pose proof (for_loop_flagged lines 0
                  {| Tooling.st_entries := []; Tooling.st_messages := [];
                     Tooling.st_current := None |}) as F.
    simpl in F. lia.
  - apply filter_length_le.
Qed.

Lemma export_json_summary_consistent_witness :
  exists p,
    Tooling.parse_log crash_fs (Tooling.init (pystr "latest.log"))
    = Ret (true, p)
    /\ let s := Reports.summary
                  (Reports.export_json (pystr "latest")
                     (pystr "2025-01-01T12:00:00") p) in
       exists lines,
         crash_fs (pystr "latest.log") = Readable lines
         /\ list_sum (map snd (Reports.level_breakdown s))
            = Reports.total_errors_warnings s
         /\ Reports.total_errors_warnings s = length (filter is_header lines)
         /\ Reports.total_biomepruner_messages s
            = length (filter tag_matches lines)
         /\ Reports.biomepruner_errors_warnings s
            <= Reports.total_biomepruner_messages s
         /\ Reports.biomepruner_errors_warnings s
            <= Reports.total_errors_warnings s.
Proof.
  pose (p := parsed (Tooling.parse_log crash_fs
                       (Tooling.init (pystr "latest.log")))
                    (Tooling.init [])).
  assert (H : Tooling.parse_log crash_fs (Tooling.init (pystr "latest.log"))
              = Ret (true, p)) by (vm_compute; reflexivity).
  exists p. split; [exact H|].
  exact (@export_json_summary_consistent crash_fs (pystr "latest.log")
           (pystr "latest") (pystr "2025-01-01T12:00:00") p H).
Defined.

(** ** The counting loop of [generate_errors_report] *)

Lemma counts_get_set d k v k' def :
  Reports.counts_get (Reports.counts_set d k v) k' def
  = if Reports.key_eqb k k' then v else Reports.counts_get d k' def.
Proof.
  induction d as [|[a x] d IH]; simpl.
  - reflexivity.
  - destruct (Reports.key_eqb a k) eqn:E1; simpl.
    + apply key_eqb_eq in E1. subst a.
      now destruct (Reports.key_eqb k k').
    + destruct (Reports.key_eqb a k') eqn:E2; [|exact IH].
      apply key_eqb_eq in E2. subst a.
      destruct (Reports.key_eqb k k') eqn:E3; [|reflexivity].
      apply key_eqb_eq in E3. subst k'. rewrite key_eqb_refl in E1.
      discriminate.
Qed.

Lemma counts_set_keys d k v :
  map fst (Reports.counts_set d k v)
  = if existsb (Reports.key_eqb k) (map fst d) then map fst d
    else map fst d ++ [k].
Proof.
  induction d as [|[a x] d IH]; simpl; [reflexivity|].
  destruct (Reports.key_eqb a k) eqn:E1; simpl.
  - apply key_eqb_eq in E1. subst a. now rewrite key_eqb_refl.
  - rewrite IH. destruct (Reports.key_eqb k a) eqn:E2.
    + apply key_eqb_eq in E2. subst a. rewrite key_eqb_refl in E1.
      discriminate.
    + simpl. now destruct (existsb (Reports.key_eqb k) (map fst d)).
Qed.

Lemma existsb_key k l : existsb (Reports.key_eqb k) l = true <-> In k l.
Proof.
  rewrite existsb_exists. split.
  - intros [x [Hx E]]. apply key_eqb_eq in E. now subst.
  - intros H. exists k. split; [exact H | apply key_eqb_refl].
Qed.

Lemma counts_set_NoDup d k v :
  NoDup (map fst d) -> NoDup (map fst (Reports.counts_set d k v)).
Proof.
  intros H. rewrite counts_set_keys.
  destruct (existsb (Reports.key_eqb k) (map fst d)) eqn:E; [exact H|].
  apply NoDup_app; [exact H | repeat constructor; intros [] |].
  intros x Hx [<-|[]]. apply existsb_key in Hx. congruence.
Qed.

Lemma counts_set_In d k v x :
  In x (map fst (Reports.counts_set d k v)) <-> In x (map fst d) \/ x = k.
Proof.
  rewrite counts_set_keys.
  destruct (existsb (Reports.key_eqb k) (map fst d)) eqn:E.
  - apply existsb_key in E. split; [tauto | intros [H | ->]; assumption].
  - rewrite in_app_iff. simpl. intuition congruence.
Qed.

Lemma count_loop_get es : forall d n k,
  Reports.counts_get (fst (fold_left Reports.count_step es (d, n))) k 0
  = Reports.counts_get d k 0
    + length (filter (fun e => Reports.key_eqb (Tooling.level e) k) es).
Proof.
  induction es as [|e es IH]; intros d n k; simpl; [lia|].
  unfold Reports.count_step at 2. cbn [fst snd]. rewrite IH, counts_get_set.
  destruct (Reports.key_eqb (Tooling.level e) k) eqn:E; simpl; [|lia].
  apply key_eqb_eq in E. rewrite E. lia.
Qed.

Lemma count_loop_flags es : forall d n,
  snd (fold_left Reports.count_step es (d, n))
  = n + length (filter Tooling.is_biomepruner es).
Proof.
  induction es as [|e es IH]; intros d n; simpl; [lia|].
  unfold Reports.count_step at 2. cbn [fst snd]. rewrite IH.
  destruct (Tooling.is_biomepruner e); simpl; lia.
Qed.

Lemma count_loop_NoDup es : forall d n,
  NoDup (map fst d) ->
  NoDup (map fst (fst (fold_left Reports.count_step es (d, n)))).
Proof.
  induction es as [|e es IH]; intros d n H; simpl; [exact H|].
  unfold Reports.count_step at 2. cbn [fst snd]. apply IH.
  now apply counts_set_NoDup.
Qed.

Lemma count_loop_In es : forall d n x,
  In x (map fst (fst (fold_left Reports.count_step es (d, n))))
  <-> In x (map fst d) \/ In x (map Tooling.level es).
Proof.
  induction es as [|e es IH]; intros d n x; simpl; [tauto|].
  unfold Reports.count_step at 2. cbn [fst snd].
  rewrite IH, counts_set_In. intuition congruence.
Qed.

(** In a dict, the items under one key. *)
Lemma filter_key d k :
  NoDup (map fst d) ->
  filter (fun kv => Reports.key_eqb (fst kv) k) d
  = if existsb (Reports.key_eqb k) (map fst d)
    then [(k, Reports.counts_get d k 0)] else [].
Proof.
  induction d as [|[a x] d IH]; intros H; simpl; [reflexivity|].
  inversion H as [|? ? Hn Hd]; subst.
  destruct (Reports.key_eqb a k) eqn:E1.
  - apply key_eqb_eq in E1. subst a. rewrite key_eqb_refl. simpl.
    rewrite IH by exact Hd.
    destruct (existsb (Reports.key_eqb k) (map fst d)) eqn:E2; [|reflexivity].
    apply existsb_key in E2. contradiction.
  - destruct (Reports.key_eqb k a) eqn:E2.
    + apply key_eqb_eq in E2. subst a. rewrite key_eqb_refl in E1.
      discriminate.
    + simpl. now apply IH.
Qed.

(** Sorting a dict whose keys are among the three levels. *)
Lemma sorted_items_levels (d : Reports.counts) :
  NoDup (map fst d) ->
  Forall (fun k => k = Some (pystr "ERROR") \/ k = Some (pystr "FATAL")
                   \/ k = Some (pystr "WARN")) (map fst d) ->
  Reports.sorted_items d
  = Some (filter (fun kv => Reports.key_eqb (fst kv) (Some (pystr "ERROR"))) d
          ++ filter (fun kv => Reports.key_eqb (fst kv) (Some (pystr "FATAL"))) d
          ++ filter (fun kv => Reports.key_eqb (fst kv) (Some (pystr "WARN"))) d).
Proof.
  intros ND F.
  destruct d as [|[k1 v1] [|[k2 v2] [|[k3 v3] [|[k4 v4] d]]]];
    cbn [map fst] in F, ND;
    repeat match goal with
           | H : Forall _ (_ :: _) |- _ => inversion H; subst; clear H
           end;
    repeat match goal with
           | H : _ \/ _ |- _ => destruct H; subst
           end;
    solve [ reflexivity
          | exfalso;
            repeat match goal with
                   | H : NoDup (_ :: _) |- _ => inversion H; subst; clear H
                   end;
            simpl in *; intuition congruence ].
Qed.

Lemma level_occurs (es : list Tooling.entry) (k : option str) :
  existsb (Reports.key_eqb k) (map Tooling.level es)
  = (0 <? length (filter (fun e => Reports.key_eqb (Tooling.level e) k) es)).
Proof.
  induction es as [|e es IH]; [reflexivity|].
  cbn [map existsb filter].
  destruct (Reports.key_eqb k (Tooling.level e)) eqn:E1.
  - apply key_eqb_eq in E1. subst k. now rewrite key_eqb_refl.
  - destruct (Reports.key_eqb (Tooling.level e) k) eqn:E2.
    + apply key_eqb_eq in E2. subst k. rewrite key_eqb_refl in E1.
      discriminate.
    + exact IH.
Qed.

Lemma existsb_ext_In {A} (f : A -> bool) (l l' : list A) :
  (forall x, In x l <-> In x l') -> existsb f l = existsb f l'.
Proof.
  intros H. apply eq_true_iff_eq. rewrite !existsb_exists.
  split; intros [x [Hx Hf]]; exists x; split; auto; now apply H.
Qed.

(** The items of [level_counts] under one key, after the loop. *)
Lemma count_levels_filter (es : list Tooling.entry) (k : option str) :
  filter (fun kv => Reports.key_eqb (fst kv) k)
         (fst (Reports.count_levels es))
  = filter (fun kv => 0 <? snd kv)
      [(k, length (filter (fun e => Reports.key_eqb (Tooling.level e) k) es))].
Proof.
  unfold Reports.count_levels.
  rewrite filter_key by (apply count_loop_NoDup; constructor).
  rewrite count_loop_get. cbn [Reports.counts_get filter snd plus].
  rewrite <- level_occurs.
  rewrite (@existsb_ext_In _ _ _ (map Tooling.level es)); [reflexivity|].
  intros x. rewrite count_loop_In. simpl. tauto.
Qed.

(** X2. In [generate_errors_report], after [parse_log] on a new parser
    object, the items of [level_counts], sorted, are the levels that
    occur, in the order ERROR, FATAL, WARN, each with the count that
    [export_json] gives for it; and [biomepruner_count] is the count of
    [export_json] too. *)
Theorem errors_report_counts
    (fs : filesystem) (path name now : str) (p : Tooling.parser) :
  Tooling.parse_log fs (Tooling.init path) = Ret (true, p) ->
  let es := Tooling.entries p in
  let s := Reports.summary (Reports.export_json name now p) in
  let count level := length (filter (Reports.level_is level) es) in
  Reports.level_breakdown s
  = [(pystr "WARN", count (pystr "WARN"));
     (pystr "ERROR", count (pystr "ERROR"));
     (pystr "FATAL", count (pystr "FATAL"))]
  /\ Reports.sorted_items (fst (Reports.count_levels es))
     = Some (filter (fun kv => 0 <? snd kv)
               [(Some (pystr "ERROR"), count (pystr "ERROR"));
                (Some (pystr "FATAL"), count (pystr "FATAL"));
                (Some (pystr "WARN"), count (pystr "WARN"))])
  /\ snd (Reports.count_levels es) = Reports.biomepruner_errors_warnings s.
Proof.
  intros H es s count.
  destruct (@tooling_parse_log_new fs path p H) as [lines [Hf [He Hm]]].
  split; [reflexivity|]. split.
  - rewrite sorted_items_levels.
    + rewrite !count_levels_filter. f_equal. subst count. cbv beta.
      unfold Reports.level_is. cbn [filter snd].
      repeat match goal with
             | |- context [if ?c then _ else _] => destruct c
             end; reflexivity.
    + apply count_loop_NoDup. constructor.
    + apply Forall_forall. intros k Hk. apply count_loop_In in Hk.
      destruct Hk as [[]|Hk]. apply in_map_iff in Hk as [e [<- Hin]].
      subst es. rewrite He in Hin.
      destruct (tooling_level_known _ _ Hin) as [lvl [-> [-> | [-> | ->]]]];
        auto.
  - unfold Reports.count_levels. now rewrite count_loop_flags.
Qed.

Lemma errors_report_counts_witness :
  exists p,
    Tooling.parse_log crash_fs (Tooling.init (pystr "latest.log"))
    = Ret (true, p)
    /\ Reports.sorted_items (fst (Reports.count_levels (Tooling.entries p)))
       = Some [(Some (pystr "ERROR"), 1); (Some (pystr "WARN"), 1)]
    /\ snd (Reports.count_levels (Tooling.entries p)) = 1.
Proof.
  pose (p := parsed (Tooling.parse_log crash_fs
                       (Tooling.init (pystr "latest.log")))
                    (Tooling.init [])).
  assert (H : Tooling.parse_log crash_fs (Tooling.init (pystr "latest.log"))
              = Ret (true, p)) by (vm_compute; reflexivity).
  exists p. split; [exact H|].
  destruct (@errors_report_counts crash_fs (pystr "latest.log")
              (pystr "latest") (pystr "2025-01-01T12:00:00") p H)
    as [_ [S B]].
  split; [rewrite S | rewrite B]; vm_compute; reflexivity.
Defined.

(** ** The lines of a report *)

Lemma split_lines_nonempty s : split_lines s <> [].
Proof.
  destruct s as [|c s]; simpl; [discriminate|].
  destruct (c =? NEWLINE)%N; [discriminate|].
  destruct (split_lines s); discriminate.
Qed.

(** A line feed between two texts separates their lines. *)
Lemma split_lines_app (a b : str) :
  split_lines (a ++ NEWLINE :: b) = split_lines a ++ split_lines b.
Proof.
  induction a as [|c a IH]; simpl.
  - reflexivity.
  - destruct (c =? NEWLINE)%N; [now rewrite IH|].
    rewrite IH. pose proof (split_lines_nonempty a).
    destruct (split_lines a); [contradiction | reflexivity].
Qed.

Lemma split_lines_join (x : str) (xs : list str) :
  split_lines (join [NEWLINE] (x :: xs))
  = concat (map split_lines (x :: xs)).
Proof.
  revert x; induction xs as [|y xs IH]; intros x.
  - simpl. now rewrite app_nil_r.
  - change (join [NEWLINE] (x :: y :: xs))
      with (x ++ NEWLINE :: join [NEWLINE] (y :: xs)).
    rewrite split_lines_app, IH. reflexivity.
Qed.

(** A text without a line feed is one line. *)
Lemma split_lines_one (s : str) : ~ In NEWLINE s -> split_lines s = [s].
Proof.
  induction s as [|c s IH]; intros H; simpl; [reflexivity|].
  destruct (c =? NEWLINE)%N eqn:E.
  - apply N.eqb_eq in E. subst c. exfalso. apply H. now left.
  - rewrite IH; [reflexivity|]. intros K. apply H. now right.
Qed.

Lemma rstrip_app_space (s : str) (c : char) :
  isspace c = true -> rstrip (s ++ [c]) = rstrip s.
Proof.
  intros Hc. induction s as [|x s IH]; simpl.
  - now rewrite Hc.
  - now rewrite IH.
Qed.

Lemma rstrip_In (s : str) (x : char) : In x (rstrip s) -> In x s.
Proof.
  intros H. destruct (rstrip_tail s) as [tail [E _]]. rewrite E.
  apply in_app_iff. now left.
Qed.

Lemma readline_shaped_rstrip (l : str) :
  readline_shaped l -> ~ In NEWLINE (rstrip l).
Proof.
  intros [body [Hb [-> | ->]]] H.
  - now apply rstrip_In in H.
  - rewrite rstrip_app_space in H by reflexivity. now apply rstrip_In in H.
Qed.

Lemma subsequence_app_r {A} (a b x : list A) :
  subsequence a b -> subsequence a (x ++ b).
Proof.
  intros H. induction x as [|y x IH]; simpl; [exact H | now constructor].
Qed.

Lemma subsequence_app_l {A} (a b y : list A) :
  subsequence a b -> subsequence a (b ++ y).
Proof.
  induction 1; simpl; try (constructor; assumption).
  apply subsequence_nil.
Qed.

(** The contents are among the lines of the sections, in their order. *)
Lemma sections_show_contents {E} (content sec : E -> list str)
    (es : list E) :
  (forall e, exists a b, sec e = a ++ content e ++ b) ->
  (forall e c, In e es -> In c (content e) -> ~ In NEWLINE c) ->
  subsequence (concat (map content es))
              (concat (map split_lines (flat_map sec es))).
Proof.
  intros Hsec Hnl. induction es as [|e es IH]; [constructor|].
  cbn [map concat flat_map]. rewrite map_app, concat_app.
  apply subsequence_app.
  - destruct (Hsec e) as [a [b ->]]. rewrite !map_app, !concat_app.
    apply subsequence_app_r, subsequence_app_l.
    assert (K : forall cs, (forall c, In c cs -> ~ In NEWLINE c) ->
                           concat (map split_lines cs) = cs).
    { clear. induction cs as [|c cs IH]; intros H; [reflexivity|].
      cbn [map concat]. rewrite split_lines_one by (apply H; now left).
      simpl. f_equal. apply IH. intros x Hx. apply H. now right. }
    rewrite K; [apply subsequence_refl|].
    intros c Hc. apply (Hnl e); [now left | exact Hc].
  - apply IH. intros e' c He'. apply Hnl. now right.
Qed.

Lemma standalone_content_no_newline lines e c :
  Forall readline_shaped lines ->
  In e (Standalone.segment lines) -> In c (Standalone.content e) ->
  ~ In NEWLINE c.
Proof.
  intros F He Hc. rewrite StandaloneFacts.segment_entries in He.
  apply In_nth_error in Hc as [j Hj].
  destruct (StandaloneFacts.content_lines _ _ He _ Hj) as [l [Hl [-> _]]].
  apply readline_shaped_rstrip. rewrite Forall_forall in F. apply F.
  now apply nth_error_In in Hl.
Qed.

(** X3. After [parse_log] on a new parser object, every line that an
    entry holds is a line of the text of [generate_report], and these
    lines come in the report in the order of the log. *)
Theorem report_shows_content_in_order
    (fs : filesystem) (path : str) (p : Standalone.parser)
    (lines : list str) :
  fs path = Readable lines -> Forall readline_shaped lines ->
  Standalone.parse_log fs (Standalone.init path) = Ret (true, p) ->
  Standalone.entries p = Standalone.segment lines
  /\ subsequence (concat (map Standalone.content (Standalone.entries p)))
                 (split_lines (StandaloneReport.generate_report p)).
Proof.
  intros Hf F H.
  unfold Standalone.parse_log, path_exists, open_readlines in H.
  cbn [Standalone.init Standalone.log_path Standalone.entries] in H.
  rewrite Hf in H. cbn [negb try_except] in H. injection H as <-.
  cbn [Standalone.entries]. fold (Standalone.segment lines).
  split; [reflexivity|].
  unfold StandaloneReport.generate_report. cbn [Standalone.entries].
  destruct (Standalone.segment lines) as [|e es] eqn:E;
    [apply subsequence_nil|].
  unfold StandaloneReport.report_items. cbn [Standalone.entries app].
  rewrite split_lines_join. rewrite <- E.
  change (?a :: ?b :: ?c :: ?d :: flat_map ?f ?l)
    with ([a; b; c; d] ++ flat_map f l).
  rewrite map_app, concat_app. apply subsequence_app_r.
  apply sections_show_contents.
  - intros e'. eexists. eexists. reflexivity.
  - intros e' c. now apply standalone_content_no_newline.
Qed.

Lemma readline_shaped_body (body : str) :
  forallb (fun c => negb (c =? NEWLINE)%N) body = true ->
  readline_shaped (body ++ [NEWLINE]).
Proof.
  intros H. exists body. split; [|now right].
  intros Hin. rewrite forallb_forall in H. specialize (H _ Hin).
  now rewrite N.eqb_refl in H.
Qed.

Lemma crash_log_shaped : Forall readline_shaped crash_log.
Proof.
  unfold crash_log.
  repeat (apply Forall_cons; [apply readline_shaped_body; reflexivity|]).
  apply Forall_nil.
Qed.

Lemma report_shows_content_in_order_witness :
  exists p,
    Standalone.parse_log crash_fs (Standalone.init (pystr "latest.log"))
    = Ret (true, p)
    /\ Standalone.entries p = Standalone.segment crash_log
    /\ subsequence
         [pystr "[12:00:00] [Server/ERROR] crash in BiomePruner";
          pystr "  at net.Foo.bar";
          pystr "[12:00:02] [Worker/WARN] slow"]
         (split_lines (StandaloneReport.generate_report p)).
Proof.
  pose (p := parsed (Standalone.parse_log crash_fs
                       (Standalone.init (pystr "latest.log")))
                    (Standalone.init [])).
  assert (H : Standalone.parse_log crash_fs
                (Standalone.init (pystr "latest.log"))
              = Ret (true, p)) by (vm_compute; reflexivity).
  exists p. split; [exact H|].
  exact (@report_shows_content_in_order crash_fs (pystr "latest.log") p
           crash_log eq_refl crash_log_shaped H).
Defined.

(** X4. The text of [generate_report] after [parse_log] on a parser
    object that held no entries: for a log without a header line it is
    the one sentence that nothing was found; for any other log it starts
    with the title, the text of [self.log_path] and, as the total of the
    issues, the number of header lines of the log. *)
Theorem report_head_counts_header_lines
    (fs : filesystem) (self p : Standalone.parser) (lines : list str) :
  Standalone.entries self = [] ->
  fs (Standalone.log_path self) = Readable lines ->
  Standalone.parse_log fs self = Ret (true, p) ->
  (Forall (fun l => is_header l = false) lines ->
   StandaloneReport.generate_report p
   = pystr "No warnings or errors found in the log file." ++ [NEWLINE])
  /\ (Exists (fun l => is_header l = true) lines ->
      exists sections,
        StandaloneReport.generate_report p
        = pystr "# Minecraft Log Errors and Warnings" ++ [NEWLINE; NEWLINE]
          ++ pystr "**Log File:** `" ++ Standalone.log_path self ++ pystr "`"
          ++ [NEWLINE; NEWLINE]
          ++ pystr "**Total Issues:** "
          ++ format_int (length (filter is_header lines))
          ++ [NEWLINE; NEWLINE]
          ++ pystr "---" ++ [NEWLINE; NEWLINE] ++ sections).
Proof.
  intros He Hf H.
  unfold Standalone.parse_log, path_exists, open_readlines in H.
  rewrite Hf, He in H. cbn [bind negb try_except] in H. injection H as <-.
  fold (Standalone.segment lines).
  pose proof (entries_from_length lines 0) as L.
  rewrite <- StandaloneFacts.segment_entries in L.
  unfold StandaloneReport.generate_report, StandaloneReport.report_items.
  cbn [Standalone.entries Standalone.log_path app]. rewrite L.
  split.
  - intros F.
    assert (E : filter is_header lines = []).
    { clear -F. induction F as [|l ls Hl _ IH]; [reflexivity|].
      simpl. now rewrite Hl. }
    rewrite E in L. destruct (Standalone.segment lines); [reflexivity|].
    discriminate.
  - intros X.
    destruct (Standalone.segment lines) as [|e es].
    + exfalso. clear -X L. induction X as [l ls Hl | l ls _ IH].
      * simpl in L. rewrite Hl in L. discriminate.
      * simpl in L. destruct (is_header l); [discriminate | auto].
    + cbn [flat_map StandaloneReport.entry_section app join].
      eexists. rewrite <- !app_assoc. cbn [app]. reflexivity.
Qed.

Lemma report_head_counts_header_lines_witness :
  exists p,
    Standalone.parse_log crash_fs latest_log_parser = Ret (true, p)
    /\ exists sections,
         StandaloneReport.generate_report p
         = pystr "# Minecraft Log Errors and Warnings" ++ [NEWLINE; NEWLINE]
           ++ pystr "**Log File:** `logs/latest.log`" ++ [NEWLINE; NEWLINE]
           ++ pystr "**Total Issues:** 2" ++ [NEWLINE; NEWLINE]
           ++ pystr "---" ++ [NEWLINE; NEWLINE] ++ sections.
Proof.
  pose (p := parsed (Standalone.parse_log crash_fs latest_log_parser)
                    latest_log_parser).
  assert (H : Standalone.parse_log crash_fs latest_log_parser
              = Ret (true, p)) by (vm_compute; reflexivity).
  exists p. split; [exact H|].
  destruct (proj2 (@report_head_counts_header_lines crash_fs
                     latest_log_parser p crash_log eq_refl eq_refl H))
    as [sections E].
  - apply Exists_cons_hd. vm_compute. reflexivity.
  - exists sections. rewrite E. vm_compute. reflexivity.
Defined.

Lemma testrunner_content_no_newline lines e c :
  Forall readline_shaped lines ->
  In e (TestRunner.segment lines) -> In c (TestRunner.content e) ->
  ~ In NEWLINE c.
Proof.
  intros F He Hc. apply (in_map TestRunnerAux.to_standalone) in He.
  rewrite TestRunnerFacts.segment_to_standalone in He.
  exact (@standalone_content_no_newline lines _ c F He Hc).
Qed.

(** X5. In the copy of the test runner too, after [parse_log] on a new
    parser object, every line that an entry holds is a line of the text
    of [generate_report], and these lines come in the report in the order
    of the log. *)
Theorem testrunner_report_shows_content_in_order
    (fs : filesystem) (path log_name : str) (p : TestRunner.parser)
    (lines : list str) :
  fs path = Readable lines -> Forall readline_shaped lines ->
  TestRunner.parse_log fs (TestRunner.init path) = Ret (true, p) ->
  TestRunner.entries p = TestRunner.segment lines
  /\ subsequence (concat (map TestRunner.content (TestRunner.entries p)))
                 (split_lines (TestRunnerReport.generate_report p log_name)).
Proof.
  intros Hf F H.
  unfold TestRunner.parse_log, path_exists, open_readlines in H.
  cbn [TestRunner.init TestRunner.log_path TestRunner.entries] in H.
  rewrite Hf in H. cbn [negb try_except] in H. injection H as <-.
  cbn [TestRunner.entries]. fold (TestRunner.segment lines).
  split; [reflexivity|].
  unfold TestRunnerReport.generate_report. cbn [TestRunner.entries].
  destruct (TestRunner.segment lines) as [|e es] eqn:E;
    [apply subsequence_nil|].
  unfold TestRunnerReport.report_items. cbn [TestRunner.entries app].
  rewrite split_lines_join. rewrite <- E.
  change (?a :: ?b :: ?c :: ?d :: flat_map ?f ?l)
    with ([a; b; c; d] ++ flat_map f l).
  rewrite map_app, concat_app. apply subsequence_app_r.
  apply sections_show_contents.
  - intros e'. eexists. eexists. reflexivity.
  - intros e' c. now apply testrunner_content_no_newline.
Qed.

Lemma testrunner_report_shows_content_in_order_witness :
  exists p,
    TestRunner.parse_log crash_fs (TestRunner.init (pystr "latest.log"))
    = Ret (true, p)
    /\ TestRunner.entries p = TestRunner.segment crash_log
    /\ subsequence
         [pystr "[12:00:00] [Server/ERROR] crash in BiomePruner";
          pystr "  at net.Foo.bar";
          pystr "[12:00:02] [Worker/WARN] slow"]
         (split_lines
            (TestRunnerReport.generate_report p (pystr "latest"))).
Proof.
  pose (p := parsed (TestRunner.parse_log crash_fs
                       (TestRunner.init (pystr "latest.log")))
                    (TestRunner.init [])).
  assert (H : TestRunner.parse_log crash_fs
                (TestRunner.init (pystr "latest.log"))
              = Ret (true, p)) by (vm_compute; reflexivity).
  exists p. split; [exact H|].
  exact (@testrunner_report_shows_content_in_order crash_fs
           (pystr "latest.log") (pystr "latest") p
           crash_log eq_refl crash_log_shaped H).
Defined.

(** ** The reports of [log_parser.py] *)

Lemma scan_contents lines : forall i,
  map Tooling.msg_content (ToolingAux.scan i lines)
  = map rstrip (filter tag_matches lines).
Proof.
  induction lines as [|l rest IH]; intros i; [reflexivity|].
  cbn [ToolingAux.scan filter]. rewrite tag_matches_rstrip.
  destruct (tag_matches l); cbn [map Tooling.msg_content];
    now rewrite IH.
Qed.

Lemma concat_map_singleton {A B} (f : A -> B) (l : list A) :
  concat (map (fun x => [f x]) l) = map f l.
Proof. induction l as [|x l IH]; simpl; [reflexivity | now rewrite IH]. Qed.

Lemma filter_nil_Forall {A} (f : A -> bool) (l : list A) :
  Forall (fun x => f x = false) l -> filter f l = [].
Proof.
  induction 1 as [|x l Hx _ IH]; [reflexivity|]. simpl. now rewrite Hx.
Qed.

Lemma tooling_content_no_newline lines e c :
  Forall readline_shaped lines ->
  In e (Tooling.segment lines) -> In c (Tooling.content e) ->
  ~ In NEWLINE c.
Proof.
  intros F He Hc. apply In_nth_error in Hc as [j Hj].
  destruct (@tooling_content_lines lines e He j c Hj) as [l [Hl [-> _]]].
  apply readline_shaped_rstrip. rewrite Forall_forall in F. apply F.
  now apply nth_error_In in Hl.
Qed.

Lemma sorted_items_segment lines :
  exists items,
    Reports.sorted_items
      (fst (Reports.count_levels (Tooling.segment lines))) = Some items.
Proof.
  eexists. apply sorted_items_levels.
  - apply count_loop_NoDup. constructor.
  - apply Forall_forall. intros k Hk. apply count_loop_In in Hk.
    destruct Hk as [[]|Hk]. apply in_map_iff in Hk as [e [<- Hin]].
    destruct (tooling_level_known _ _ Hin) as [lvl [-> [-> | [-> | ->]]]];
      auto.
Qed.

(** X6. After [parse_log] on a new parser object, the text of
    [generate_errors_report] is made without a [TypeError] from [sorted];
    every line that an entry holds is a line of it, in the order of the
    log; and for a log without a header line it is the title and the one
    sentence that nothing was found. *)
Theorem errors_report_shows_content_in_order
    (fs : filesystem) (path name now : str) (p : Tooling.parser)
    (lines : list str) :
  fs path = Readable lines -> Forall readline_shaped lines ->
  Tooling.parse_log fs (Tooling.init path) = Ret (true, p) ->
  exists report,
    Reports.generate_errors_report name now p = Some report
    /\ subsequence (concat (map Tooling.content (Tooling.entries p)))
                   (split_lines report)
    /\ (Forall (fun l => is_header l = false) lines ->
        report
        = pystr "# Minecraft Log Errors and Warnings (" ++ name
          ++ pystr ")" ++ [NEWLINE; NEWLINE]
          ++ pystr "No warnings, errors, or fatal errors found in the log file."
          ++ [NEWLINE]).
Proof.
  intros Hf F H.
  destruct (@tooling_parse_log_new fs path p H) as [lines' [Hf' [He _]]].
  rewrite Hf in Hf'. injection Hf' as <-.
  assert (L : length (Tooling.segment lines)
              = length (filter is_header lines)).
  { rewrite <- (length_map ToolingAux.forget), ToolingFacts.segment_forget.
    rewrite StandaloneFacts.segment_entries. apply entries_from_length. }
  unfold Reports.generate_errors_report. cbv zeta. rewrite He.
  destruct (sorted_items_segment lines) as [items ->].
  pose proof (@tooling_content_no_newline lines) as NL.
  destruct (Tooling.segment lines) as [|e es] eqn:E.
  - eexists. split; [reflexivity|]. split; [apply subsequence_nil|].
    reflexivity.
  - eexists. split; [reflexivity|]. split.
    + unfold Reports.errors_report_items. cbn [app].
      rewrite split_lines_join.
      change (?a :: ?b :: ?c :: ?d :: ?x :: ?y :: ?z :: flat_map ?f ?l)
        with ([a; b; c; d; x; y; z] ++ flat_map f l).
      rewrite map_app, concat_app. apply subsequence_app_r.
      rewrite He. apply sections_show_contents.
      * intros e'. eexists. eexists. reflexivity.
      * intros e' c He' Hc. exact (NL e' c F He' Hc).
    + intros N. rewrite (filter_nil_Forall _ N) in L. discriminate.
Qed.

Lemma errors_report_shows_content_in_order_witness :
  exists p report,
    Tooling.parse_log crash_fs (Tooling.init (pystr "latest.log"))
    = Ret (true, p)
    /\ Reports.generate_errors_report (pystr "latest")
         (pystr "2025-01-01 12:00:00") p = Some report
    /\ subsequence
         [pystr "[12:00:00] [Server/ERROR] crash in BiomePruner";
          pystr "  at net.Foo.bar";
          pystr "[12:00:02] [Worker/WARN] slow"]
         (split_lines report).
Proof.
  pose (p := parsed (Tooling.parse_log crash_fs
                       (Tooling.init (pystr "latest.log")))
                    (Tooling.init [])).
  assert (H : Tooling.parse_log crash_fs (Tooling.init (pystr "latest.log"))
              = Ret (true, p)) by (vm_compute; reflexivity).
  destruct (@errors_report_shows_content_in_order crash_fs
              (pystr "latest.log") (pystr "latest")
              (pystr "2025-01-01 12:00:00") p crash_log eq_refl
              crash_log_shaped H)
    as [report [R [S _]]].
  exists p, report. split; [exact H|]. split; [exact R | exact S].
Defined.

(** X7. After [parse_log] on a new parser object, the lines of the log
    that contain the tag, stripped at the end, are lines of the text of
    [generate_biomepruner_report], in the order of the log; and for a log
    without the tag the text is the title and the one sentence that
    nothing was found. *)
Theorem biomepruner_report_lists_tagged_lines
    (fs : filesystem) (path name now : str) (p : Tooling.parser)
    (lines : list str) :
  fs path = Readable lines -> Forall readline_shaped lines ->
  Tooling.parse_log fs (Tooling.init path) = Ret (true, p) ->
  subsequence (map rstrip (filter tag_matches lines))
              (split_lines (Reports.generate_biomepruner_report name now p))
  /\ (Forall (fun l => tag_matches l = false) lines ->
      Reports.generate_biomepruner_report name now p
      = pystr "# BiomePruner Messages (" ++ name ++ pystr ")"
        ++ [NEWLINE; NEWLINE]
        ++ pystr "No BiomePruner-related messages found in the log file."
        ++ [NEWLINE]).
Proof.
  intros Hf F H.
  destruct (@tooling_parse_log_new fs path p H) as [lines' [Hf' [_ Hm]]].
  rewrite Hf in Hf'. injection Hf' as <-.
  rewrite tagged_lines_scan in Hm.
  unfold Reports.generate_biomepruner_report,
    Reports.biomepruner_report_items.
  rewrite Hm. rewrite <- (scan_contents lines 0).
  assert (NL : forall m, In m (ToolingAux.scan 0 lines) ->
                         ~ In NEWLINE (Tooling.msg_content m)).
  { intros m Hin. apply In_scan in Hin as [k [l [Hl [_ ->]]]].
    cbn [Tooling.msg_content]. apply readline_shaped_rstrip.
    rewrite Forall_forall in F. apply F. now apply nth_error_In in Hl. }
  pose proof (scan_length lines 0) as L.
  destruct (ToolingAux.scan 0 lines) as [|m ms] eqn:E.
  - split; [apply subsequence_nil | reflexivity].
  - split.
    + cbn [app]. rewrite split_lines_join.
      change (?a :: ?b :: ?c :: ?d :: ?x :: flat_map ?f ?l)
        with ([a; b; c; d; x] ++ flat_map f l).
      rewrite map_app, concat_app. apply subsequence_app_r.
      rewrite <- (concat_map_singleton Tooling.msg_content).
      apply sections_show_contents.
      * intros m'. exists [pystr "**Line "
                             ++ format_int (Tooling.msg_line_number m')
                             ++ pystr ":**"; pystr "```"],
                          [pystr "```" ++ [NEWLINE]].
        reflexivity.
      * intros m' c Hm' [<-|[]]. now apply NL.
    + intros N. rewrite (filter_nil_Forall _ N) in L. discriminate.
Qed.

Lemma biomepruner_report_lists_tagged_lines_witness :
  exists p,
    Tooling.parse_log crash_fs (Tooling.init (pystr "latest.log"))
    = Ret (true, p)
    /\ subsequence
         [pystr "[12:00:00] [Server/ERROR] crash in BiomePruner"]
         (split_lines
            (Reports.generate_biomepruner_report (pystr "latest")
               (pystr "2025-01-01 12:00:00") p)).
Proof.
  pose (p := parsed (Tooling.parse_log crash_fs
                       (Tooling.init (pystr "latest.log")))
                    (Tooling.init [])).
  assert (H : Tooling.parse_log crash_fs (Tooling.init (pystr "latest.log"))
              = Ret (true, p)) by (vm_compute; reflexivity).
  exists p. split; [exact H|].
  exact (proj1 (@biomepruner_report_lists_tagged_lines crash_fs
                  (pystr "latest.log") (pystr "latest")
                  (pystr "2025-01-01 12:00:00") p crash_log eq_refl
                  crash_log_shaped H)).
Defined.

(** ** Dicts *)

Lemma dict_get_set {V} (k k' : str) (v : V) (d : dict V) :
  dict_get k' (dict_set k v d)
  = if str_eqb k k' then Some v else dict_get k' d.
Proof.
  induction d as [|[a x] d IH]; simpl.
  - reflexivity.
  - destruct (str_eqb a k) eqn:E1; simpl.
    + apply str_eqb_eq in E1. subst a. now destruct (str_eqb k k').
    + destruct (str_eqb a k') eqn:E2; [|exact IH].
      apply str_eqb_eq in E2. subst a.
      destruct (str_eqb k k') eqn:E3; [|reflexivity].
      apply str_eqb_eq in E3. subst k'. rewrite str_eqb_refl in E1.
      discriminate.
Qed.

(** Writing what is there already changes nothing. *)
Lemma dict_set_same {V} (k : str) (v : V) (d : dict V) :
  dict_get k d = Some v -> dict_set k v d = d.
Proof.
  induction d as [|[a x] d IH]; simpl; [discriminate|].
  destruct (str_eqb a k) eqn:E.
  - intros H. now injection H as ->.
  - intros H. now rewrite IH.
Qed.

(** The keys that were there stay where they are. *)
Lemma dict_set_keys {V} (k : str) (v : V) (d : dict V) :
  exists new, map fst (dict_set k v d) = map fst d ++ new.
Proof.
  induction d as [|[a x] d [new IH]]; simpl.
  - now exists [k].
  - destruct (str_eqb a k); simpl.
    + exists []. now rewrite app_nil_r.
    + exists new. now rewrite IH.
Qed.

(** ** The configuration of the test runner *)

Section TomlFacts.

Variable other : Type.

Lemma fold_assign_other (l : list (str * bool)) :
  forall (t : dict (Runner.value other)) k,
    ~ In k (map fst l) ->
    dict_get k (fold_left (@Runner.assign other) l t) = dict_get k t.
Proof.
  induction l as [|[k0 b0] l IH]; intros t k H; [reflexivity|].
  cbn [fold_left]. rewrite IH by (intros K; apply H; now right).
  unfold Runner.assign. cbn [fst snd]. rewrite dict_get_set.
  destruct (str_eqb k0 k) eqn:E; [|reflexivity].
  apply str_eqb_eq in E. subst k0. exfalso. apply H. now left.
Qed.

Lemma fold_assign_in (l : list (str * bool)) :
  forall (t : dict (Runner.value other)) k b,
    NoDup (map fst l) -> In (k, b) l ->
    dict_get k (fold_left (@Runner.assign other) l t)
    = Some (Runner.VBool other b).
Proof.
  induction l as [|[k0 b0] l IH]; intros t k b ND Hin; [destruct Hin|].
  cbn [fold_left]. inversion ND as [|? ? Hn ND']; subst.
  destruct Hin as [E|Hin].
  - injection E as -> ->. rewrite fold_assign_other by exact Hn.
    unfold Runner.assign. cbn [fst snd].
    now rewrite dict_get_set, str_eqb_refl.
  - now apply IH.
Qed.

(** Assignments of what is there already change nothing. *)
Lemma fold_assign_same (l : list (str * bool)) :
  forall (t : dict (Runner.value other)),
    (forall k b, In (k, b) l -> dict_get k t = Some (Runner.VBool other b)) ->
    fold_left (@Runner.assign other) l t = t.
Proof.
  induction l as [|[k0 b0] l IH]; intros t H; [reflexivity|].
  cbn [fold_left]. unfold Runner.assign at 2. cbn [fst snd].
  rewrite dict_set_same by (apply H; now left).
  apply IH. intros k b Hin. apply H. now right.
Qed.

Lemma testing_assignments_NoDup mode :
  NoDup (map fst (Runner.testing_assignments mode)).
Proof.
  unfold Runner.testing_assignments.
  destruct (str_eqb mode (pystr "biome"));
    [|destruct (str_eqb mode (pystr "performance"));
      [|destruct (str_eqb mode (pystr "biome+performance"))]];
    cbn [app map fst]; eval_literals;
    repeat (constructor; [simpl; intuition discriminate|]); constructor.
Qed.

(** X8. What [enable_automated_testing] does to the loaded configuration:
    every section but [general] and [testing] is as it was, [general] is
    as it was or is a new empty table, in [testing] every key other than
    the seven flags is as it was and the seven flags have the values of
    the test mode, no section changes its place, and enabling a second
    time changes nothing more. *)
Theorem enable_testing_effect
    (mode : str) (config config' : dict (Runner.value other)) :
  Runner.enable_testing mode config = Some config' ->
  (forall k, k <> pystr "general" -> k <> pystr "testing" ->
             dict_get k config' = dict_get k config)
  /\ dict_get (pystr "general") config'
     = match dict_get (pystr "general") config with
       | Some v => Some v
       | None => Some (Runner.VTable [])
       end
  /\ (exists t t',
         (dict_get (pystr "testing") config = Some (Runner.VTable t)
          \/ dict_get (pystr "testing") config = None /\ t = [])
         /\ dict_get (pystr "testing") config' = Some (Runner.VTable t')
         /\ (forall k, ~ In k (map fst (Runner.testing_assignments mode)) ->
                       dict_get k t' = dict_get k t)
         /\ (forall k b, In (k, b) (Runner.testing_assignments mode) ->
                         dict_get k t' = Some (Runner.VBool other b)))
  /\ (exists new, map fst config' = map fst config ++ new)
  /\ Runner.enable_testing mode config' = Some config'.
Proof.
  unfold Runner.enable_testing at 1. cbv zeta. unfold dict_contains.
  set (c1 := if truthy (dict_get (pystr "general") config) then config
             else dict_set (pystr "general") (Runner.VTable []) config).
  set (c2 := if truthy (dict_get (pystr "testing") c1) then c1
             else dict_set (pystr "testing") (Runner.VTable []) c1).
  assert (G1 : forall k, k <> pystr "general" ->
                         dict_get k c1 = dict_get k config).
  { intros k Hk. subst c1.
    destruct (truthy (dict_get (pystr "general") config)); [reflexivity|].
    rewrite dict_get_set.
    destruct (str_eqb (pystr "general") k) eqn:E; [|reflexivity].
    apply str_eqb_eq in E. congruence. }
  assert (G2 : forall k, k <> pystr "testing" ->
                         dict_get k c2 = dict_get k c1).
  { intros k Hk. subst c2.
    destruct (truthy (dict_get (pystr "testing") c1)); [reflexivity|].
    rewrite dict_get_set.
    destruct (str_eqb (pystr "testing") k) eqn:E; [|reflexivity].
    apply str_eqb_eq in E. congruence. }
  assert (Ggen : dict_get (pystr "general") c1
                 = match dict_get (pystr "general") config with
                   | Some v => Some v
                   | None => Some (Runner.VTable [])
                   end).
  { subst c1. destruct (dict_get (pystr "general") config) eqn:E; simpl.
    - exact E.
    - now rewrite dict_get_set, str_eqb_refl. }
  assert (Ngt : pystr "general" <> pystr "testing") by discriminate.
  destruct (dict_get (pystr "testing") c2) as [[b|a|t]|] eqn:Et;
    try discriminate.
  intros H.
  set (t' := fold_left (@Runner.assign other)
                       (Runner.testing_assignments mode) t) in *.
  apply (f_equal (fun o => match o with Some x => x | None => config' end))
    in H.
  cbv beta iota in H. subst config'.
  assert (T' : dict_get (pystr "testing")
                 (dict_set (pystr "testing") (Runner.VTable t') c2)
               = Some (Runner.VTable t'))
    by now rewrite dict_get_set, str_eqb_refl.
  assert (K : forall k, k <> pystr "testing" ->
                dict_get k (dict_set (pystr "testing") (Runner.VTable t') c2)
                = dict_get k c2).
  { intros k Hk. rewrite dict_get_set.
    destruct (str_eqb (pystr "testing") k) eqn:E; [|reflexivity].
    apply str_eqb_eq in E. congruence. }
  split; [|split; [|split; [|split]]].
  - intros k Hg Ht. now rewrite K, G2, G1.
  - now rewrite K, G2 by exact Ngt.
  - exists t, t'. split; [|split; [exact T'|split]].
    + subst c2. destruct (dict_get (pystr "testing") c1) eqn:E1; simpl in Et.
      * left. rewrite <- G1 by congruence. congruence.
      * right. rewrite dict_get_set, str_eqb_refl in Et.
        injection Et as <-. split; [|reflexivity].
        rewrite <- G1 by congruence. exact E1.
    + intros k Hk. now apply fold_assign_other.
    + intros k b Hin. apply fold_assign_in; [|exact Hin].
      apply testing_assignments_NoDup.
  - destruct (dict_set_keys (pystr "testing") (Runner.VTable t') c2)
      as [n3 ->].
    subst c2 c1.
    destruct (truthy (dict_get (pystr "general") config)).
    + destruct (truthy (dict_get (pystr "testing") config)).
      * now exists n3.
      * destruct (dict_set_keys (pystr "testing")
                    (Runner.VTable (other := other) []) config) as [n2 ->].
        exists (n2 ++ n3). now rewrite app_assoc.
    + destruct (dict_set_keys (pystr "general")
                  (Runner.VTable (other := other) []) config) as [n1 E1].
      destruct (truthy (dict_get (pystr "testing")
                  (dict_set (pystr "general") (Runner.VTable []) config))).
      * rewrite E1. exists (n1 ++ n3). now rewrite app_assoc.
      * destruct (dict_set_keys (pystr "testing")
                    (Runner.VTable (other := other) [])
                    (dict_set (pystr "general") (Runner.VTable []) config))
          as [n2 ->].
        rewrite E1. exists (n1 ++ n2 ++ n3). now rewrite !app_assoc.
  - unfold Runner.enable_testing. cbv zeta. unfold dict_contains.
    rewrite K by congruence. rewrite G2 by congruence. rewrite Ggen.
    assert (Tr : truthy (match dict_get (pystr "general") config with
                         | Some v => Some v
                         | None => Some (Runner.VTable (other := other) [])
                         end) = true)
      by now destruct (dict_get (pystr "general") config).
    rewrite Tr, T'. cbn [truthy]. rewrite T'.
    fold t'. rewrite (@fold_assign_same (Runner.testing_assignments mode) t').
    + now rewrite dict_set_same.
    + intros k b Hin. apply fold_assign_in; [|exact Hin].
      apply testing_assignments_NoDup.
Qed.

End TomlFacts.

Lemma enable_testing_effect_witness :
  exists config',
    Runner.enable_testing (pystr "biome") sample_config = Some config'
    /\ dict_get (pystr "biomes") config' = Some (Runner.VTable [])
    /\ dict_get (pystr "general") config' = Some (Runner.VTable [])
    /\ (exists t',
           dict_get (pystr "testing") config' = Some (Runner.VTable t')
           /\ dict_get (pystr "seed") t' = Some (Runner.VOther (pystr "42"))
           /\ dict_get (pystr "enabled") t' = Some (Runner.VBool str true)
           /\ dict_get (pystr "performanceLogging") t'
              = Some (Runner.VBool str false))
    /\ map fst config'
       = [pystr "testing"; pystr "biomes"; pystr "general"]
    /\ Runner.enable_testing (pystr "biome") config' = Some config'.
Proof.
  pose (config' := match Runner.enable_testing (pystr "biome") sample_config
                   with Some c => c | None => [] end).
  assert (H : Runner.enable_testing (pystr "biome") sample_config
              = Some config') by (vm_compute; reflexivity).
  exists config'. split; [exact H|].
  destruct (@enable_testing_effect str (pystr "biome") sample_config config' H)
    as [O [G [[t [t' [Ht [Ht' [K F]]]]] [_ I]]]].
  split; [|split; [|split; [|split]]].
  - rewrite O by (vm_compute; discriminate). reflexivity.
  - rewrite G. reflexivity.
  - destruct Ht as [Ht | [Ht _]]; [|discriminate].
    injection Ht as <-. exists t'. split; [exact Ht'|].
    split; [|split].
    + rewrite K; [reflexivity|]. vm_compute. intuition discriminate.
    + apply F. vm_compute. auto.
    + apply F. vm_compute. auto 10.
  - vm_compute. reflexivity.
  - exact I.
Defined.

Section ConfigRoundTrip.

Variable other : Type.
Variable toml_load : str -> option (dict (Runner.value other)).
Variable toml_dump : dict (Runner.value other) -> option str.

Lemma write_config_true o w body w' :
  Runner.write_config o w body = (true, w') ->
  o = Runner.Written /\ Runner.config_text w' = body /\ body <> None.
Proof.
  unfold Runner.write_config.
  destruct o, body; intros H; try discriminate.
  injection H as <-. repeat split. discriminate.
Qed.

Lemma enable_true readable o w self w2 :
  Runner.enable_automated_testing toml_load toml_dump readable o w self
  = (true, w2) ->
  o = Runner.Written
  /\ exists text config config',
       Runner.config_text w = Some text
       /\ toml_load text = Some config
       /\ Runner.enable_testing (Runner.test_mode self) config = Some config'
       /\ Runner.config_text w2 = toml_dump config'
       /\ toml_dump config' <> None.
Proof.
  unfold Runner.enable_automated_testing, Runner.read_config.
  destruct readable; [|discriminate].
  destruct (Runner.config_text w) as [text|]; [|discriminate].
  destruct (toml_load text) as [config|] eqn:El; [|discriminate].
  destruct (Runner.enable_testing (Runner.test_mode self) config)
    as [config'|] eqn:Ee; [|discriminate].
  intros H. destruct (write_config_true _ _ _ H) as [-> [E N]].
  split; [reflexivity|]. exists text, config, config'.
  repeat split; first [assumption | reflexivity].
Qed.

(** X9. Backup, change, restore, whatever each read and each write comes
    to: when [backup_config] has returned [True], then after
    [enable_automated_testing], be it gone through, stopped before its
    write or failed in the middle of it, [restore_config] returns [True]
    exactly when its own write goes through, and then the file holds the
    text that the backup read.  An [enable_automated_testing] that
    returns [True] has left in the file the text that [toml.dump] makes of
    the changed configuration; one whose read fails or whose [open] for
    writing raises returns [False] and leaves the file as it was.  A
    restore on a runner that holds no backup does not write. *)
Theorem config_restored_after_testing
    (r1 r2 : bool) (o2 o3 : Runner.write_outcome)
    (w w2 w3 : Runner.config_file) (self self1 : Runner.runner)
    (b2 b3 : bool) :
  Runner.backup_config r1 w self = (true, self1) ->
  Runner.enable_automated_testing toml_load toml_dump r2 o2 w self1
  = (b2, w2) ->
  Runner.restore_config o3 w2 self1 = (b3, w3) ->
  (b3 = true <-> o3 = Runner.Written)
  /\ (b3 = true -> Runner.config_text w3 = Runner.config_text w)
  /\ (b2 = true ->
      exists text config config',
        Runner.config_text w = Some text
        /\ toml_load text = Some config
        /\ Runner.enable_testing (Runner.test_mode self) config
           = Some config'
        /\ Runner.config_text w2 = toml_dump config'
        /\ toml_dump config' <> None)
  /\ (r2 = false \/ o2 = Runner.OpenRaises -> b2 = false /\ w2 = w)
  /\ (forall o mode w0,
         Runner.restore_config o w0 (Runner.init mode) = (true, w0)).
Proof.
  intros Hb He Hr.
  assert (B : exists text, Runner.config_text w = Some text
                           /\ Runner.config_backup self1 = Some text
                           /\ Runner.test_mode self1 = Runner.test_mode self).
  { unfold Runner.backup_config, Runner.read_config in Hb.
    destruct r1; [|discriminate].
    destruct (Runner.config_text w) as [text|]; [|discriminate].
    injection Hb as <-. now exists text. }
  destruct B as [text [Ht [Hbk Hm]]].
  unfold Runner.restore_config in Hr. rewrite Hbk in Hr.
  split; [|split; [|split; [|split]]].
  - split.
    + intros ->. now destruct (write_config_true _ _ _ Hr).
    + intros ->. cbn in Hr. now injection Hr as <- _.
  - intros ->. destruct (write_config_true _ _ _ Hr) as [_ [-> _]].
    now rewrite Ht.
  - intros ->. destruct (enable_true _ _ _ _ He) as [_ K].
    now rewrite Hm in K.
  - unfold Runner.enable_automated_testing, Runner.read_config in He.
    intros [-> | ->].
    + now injection He as <- <-.
    + rewrite Ht in He. destruct r2; [|now injection He as <- <-].
      destruct (toml_load text) as [config|];
        [|now injection He as <- <-].
      destruct (Runner.enable_testing (Runner.test_mode self1) config);
        [|now injection He as <- <-].
      cbn in He. now injection He as <- <-.
  - reflexivity.
Qed.

End ConfigRoundTrip.

(** An [enable_automated_testing] whose write fails in the middle, and a
    restore that goes through after it. *)
Lemma config_restored_after_testing_witness :
  exists self1 w2 w3,
    Runner.backup_config true sample_config_file
      (Runner.init (pystr "biome"))
    = (true, self1)
    /\ Runner.enable_automated_testing
         (fun _ => Some sample_config)
         (fun _ => Some (pystr "[testing] enabled = true"))
         true (Runner.WriteRaises (pystr "[testing] ena"))
         sample_config_file self1
       = (false, w2)
    /\ Runner.config_text w2 = Some (pystr "[testing] ena")
    /\ Runner.restore_config Runner.Written w2 self1 = (true, w3)
    /\ Runner.config_text w3 = Runner.config_text sample_config_file.
Proof.
  eexists. eexists. eexists.
  split; [reflexivity|]. split; [reflexivity|]. split; [reflexivity|].
  split; [reflexivity|].
  refine (proj1 (proj2
            (@config_restored_after_testing str
               (fun _ => Some sample_config)
               (fun _ => Some (pystr "[testing] enabled = true"))
               true true (Runner.WriteRaises (pystr "[testing] ena"))
               Runner.Written
               sample_config_file _ _ (Runner.init (pystr "biome")) _
               false true eq_refl eq_refl eq_refl)) eq_refl).
Defined.

(** ** The files of old test results *)

Section CleanupFacts.

Variable mtime : Type.
Variable mtime_lt : mtime -> mtime -> bool.

(** [<] on the time stamps is a strict weak order. *)
Hypothesis mtime_lt_asym :
  forall a b, mtime_lt a b = true -> mtime_lt b a = false.
Hypothesis mtime_lt_negtrans :
  forall a b c, mtime_lt a c = true ->
                mtime_lt a b = true \/ mtime_lt b c = true.


Lemma stat_all_spec (files : list (Runner.result_file mtime)) keyed :
  Runner.stat_all files = Ret keyed ->
  map snd keyed = files
  /\ Forall (fun tf => Runner.st_mtime (snd tf) = Some (fst tf)) keyed.
Proof.
  revert keyed; induction files as [|f files IH]; intros keyed; simpl.
  - intros H. injection H as <-. split; [reflexivity | constructor].
  - destruct (Runner.st_mtime f) as [t|] eqn:Et; [|discriminate].
    destruct (Runner.stat_all files) as [k|e]; [|discriminate].
    intros H. injection H as <-. destruct (IH k eq_refl) as [E F].
    split; [simpl; now rewrite E | now constructor].
Qed.

Lemma insert_newest_first_perm x (l : list (mtime * Runner.result_file mtime)) :
  Permutation (Runner.insert_newest_first mtime_lt x l) (x :: l).
Proof.
  induction l as [|y l IH]; simpl; [reflexivity|].
  match goal with |- context [if ?c then _ else _] => destruct c end;
    [reflexivity|].
  rewrite IH. apply perm_swap.
Qed.

Lemma fold_insert_perm (keyed : list (mtime * Runner.result_file mtime)) :
  forall acc,
  Permutation
    (fold_left (fun acc x => Runner.insert_newest_first mtime_lt x acc)
               keyed acc)
    (keyed ++ acc).
Proof.
  induction keyed as [|x keyed IH]; intros acc; simpl; [reflexivity|].
  rewrite IH, insert_newest_first_perm. symmetry. apply Permutation_middle.
Qed.

Lemma insert_newest_first_sorted x
    (l : list (mtime * Runner.result_file mtime)) :
  StronglySorted (Runner.not_older mtime_lt) l ->
  StronglySorted (Runner.not_older mtime_lt)
    (Runner.insert_newest_first mtime_lt x l).
Proof.
  induction 1 as [|y l Hs IH Hy]; simpl.
  - repeat constructor.
  - destruct (mtime_lt (fst y) (fst x)) eqn:E.
    + constructor; [now constructor|]. constructor.
      * now apply mtime_lt_asym.
      * eapply Forall_impl; [|exact Hy]. unfold Runner.not_older. intros z Hz.
        destruct (mtime_lt (fst x) (fst z)) eqn:Ez; [|reflexivity].
        destruct (mtime_lt_negtrans (fst y) Ez) as [K|K].
        -- apply mtime_lt_asym in K. congruence.
        -- congruence.
    + constructor; [exact IH|].
      eapply Permutation_Forall;
        [symmetry; apply insert_newest_first_perm|].
      now constructor.
Qed.

Lemma fold_insert_sorted (keyed : list (mtime * Runner.result_file mtime)) :
  forall acc,
  StronglySorted (Runner.not_older mtime_lt) acc ->
  StronglySorted (Runner.not_older mtime_lt)
    (fold_left (fun acc x => Runner.insert_newest_first mtime_lt x acc)
               keyed acc).
Proof.
  induction keyed as [|x keyed IH]; intros acc H; simpl; [exact H|].
  now apply IH, insert_newest_first_sorted.
Qed.

Lemma StronglySorted_split {A} (R : A -> A -> Prop) (l : list A) n a b :
  StronglySorted R l -> In a (firstn n l) -> In b (skipn n l) -> R a b.
Proof.
  intros H. revert n. induction H as [|x l Hs IH Hx]; intros n Ha Hb.
  - rewrite firstn_nil in Ha. destruct Ha.
  - destruct n as [|n]; [destruct Ha|]. simpl in Ha, Hb.
    destruct Ha as [<-|Ha].
    + rewrite Forall_forall in Hx. apply Hx.
      rewrite <- (firstn_skipn n l). apply in_app_iff. now right.
    + now apply (IH n).
Qed.

Lemma filter_filter_and {A} (p q : A -> bool) (l : list A) :
  filter p (filter q l) = filter (fun x => q x && p x) l.
Proof.
  induction l as [|x l IH]; [reflexivity|]. simpl.
  destruct (q x); simpl; [destruct (p x)|]; now rewrite IH.
Qed.

Lemma fold_unlink (dels dir : list (Runner.result_file mtime)) :
  fold_left (@Runner.unlink mtime) dels dir
  = filter (fun g =>
              forallb (fun f => negb (Runner.unlink_ok f
                                      && str_eqb (Runner.file_name g)
                                                 (Runner.file_name f)))
                      dels) dir.
Proof.
  revert dir; induction dels as [|f dels IH]; intros dir.
  - simpl. induction dir as [|g dir IHd]; simpl; [reflexivity | now f_equal].
  - cbn [fold_left]. rewrite IH. unfold Runner.unlink.
    destruct (Runner.unlink_ok f) eqn:E.
    + rewrite filter_filter_and. apply filter_ext. intros g.
      cbn [forallb]. now rewrite E.
    + apply filter_ext. intros g. cbn [forallb]. now rewrite E.
Qed.

Lemma NoDup_app_disjoint {A} (l1 l2 : list A) x :
  NoDup (l1 ++ l2) -> In x l1 -> In x l2 -> False.
Proof.
  induction l1 as [|y l1 IH]; intros H H1 H2; [destruct H1|].
  simpl in H. inversion H as [|? ? Hn Hd]; subst.
  destruct H1 as [->|H1]; [|now apply IH].
  apply Hn, in_app_iff. now right.
Qed.

Lemma cleanup_outcome
    (files : list (Runner.result_file mtime))
    (keyed : list (mtime * Runner.result_file mtime)) :
  NoDup (map (@Runner.file_name mtime) files) ->
  Runner.MAX_TEST_RESULT_FILES < length files ->
  Runner.stat_all files = Ret keyed ->
  exists files',
    Runner.cleanup_old_test_result_files mtime_lt (Runner.Dir files)
    = Ret (Runner.Dir files')
    /\ length (Runner.files_to_keep mtime_lt keyed) = 5
    /\ incl (Runner.files_to_keep mtime_lt keyed) files'
    /\ incl files' files
    /\ (forall g, In g files' ->
                  In g (Runner.files_to_keep mtime_lt keyed)
                  \/ Runner.unlink_ok g = false)
    /\ (forall k g tk tg,
           In k (Runner.files_to_keep mtime_lt keyed) ->
           In g files -> ~ In g (Runner.files_to_keep mtime_lt keyed) ->
           Runner.st_mtime k = Some tk -> Runner.st_mtime g = Some tg ->
           mtime_lt tk tg = false)
    /\ NoDup files'
    /\ NoDup (Runner.files_to_keep mtime_lt keyed).
Proof.
  intros ND Hlen Hstat.
  destruct (stat_all_spec _ Hstat) as [Hfiles Hkeys].
  set (S := fold_left (fun acc x => Runner.insert_newest_first mtime_lt x acc)
                      keyed []).
  assert (PS : Permutation S keyed).
  { subst S. rewrite fold_insert_perm. now rewrite app_nil_r. }
  assert (SS : StronglySorted (Runner.not_older mtime_lt) S).
  { subst S. apply fold_insert_sorted. constructor. }
  set (sorted := Runner.sort_newest_first mtime_lt keyed).
  assert (Psorted : Permutation sorted files).
  { subst sorted. unfold Runner.sort_newest_first. fold S.
    rewrite <- Hfiles. now apply Permutation_map. }
  assert (Esplit : sorted = firstn 5 sorted ++ skipn 5 sorted)
    by (symmetry; apply firstn_skipn).
  assert (NDs : NoDup (map (@Runner.file_name mtime)
                          (firstn 5 sorted ++ skipn 5 sorted))).
  { rewrite <- Esplit. eapply Permutation_NoDup; [|exact ND].
    symmetry. now apply Permutation_map. }
  assert (Names : forall k f, In k (firstn 5 sorted) -> In f (skipn 5 sorted) ->
                              str_eqb (Runner.file_name k) (Runner.file_name f)
                              = false).
  { intros k f Hk Hf. apply str_eqb_neq. intros E.
    rewrite map_app in NDs.
    apply (NoDup_app_disjoint _ _ (Runner.file_name k) NDs).
    - now apply in_map.
    - rewrite E. now apply in_map. }
  assert (Split : forall g, In g files ->
                            In g (firstn 5 sorted) \/ In g (skipn 5 sorted)).
  { intros g Hg. apply in_app_iff. rewrite <- Esplit.
    eapply Permutation_in; [symmetry; exact Psorted | exact Hg]. }
  exists (fold_left (@Runner.unlink mtime) (skipn 5 sorted) files).
  unfold Runner.files_to_keep, Runner.MAX_TEST_RESULT_FILES in *.
  fold sorted.
  split; [|split; [|split; [|split; [|split; [|split; [|split]]]]]].
  - unfold Runner.cleanup_old_test_result_files,
      Runner.MAX_TEST_RESULT_FILES.
    destruct (length files <=? 5) eqn:E; [apply Nat.leb_le in E; lia|].
    now rewrite Hstat.
  - apply firstn_length_le.
    rewrite (Permutation_length Psorted). lia.
  - intros k Hk. rewrite fold_unlink. apply filter_In. split.
    + eapply Permutation_in; [exact Psorted|].
      rewrite Esplit. apply in_app_iff. now left.
    + apply forallb_forall. intros f Hf. rewrite (Names k f Hk Hf).
      now rewrite andb_false_r.
  - intros g Hg. rewrite fold_unlink in Hg. now apply filter_In in Hg.
  - intros g Hg. rewrite fold_unlink in Hg. apply filter_In in Hg as [Hg1 Hg2].
    destruct (Split g Hg1) as [K|K]; [now left | right].
    rewrite forallb_forall in Hg2. specialize (Hg2 g K).
    rewrite str_eqb_refl, andb_true_r in Hg2.
    now apply negb_true_iff in Hg2.
  - intros k g tk tg Hk Hg Hng Htk Htg.
    destruct (Split g Hg) as [K|K]; [contradiction|].
    subst sorted. unfold Runner.sort_newest_first in Hk, K. fold S in Hk, K.
    rewrite firstn_map in Hk. rewrite skipn_map in K.
    apply in_map_iff in Hk as [a [Ea Ha]].
    apply in_map_iff in K as [b [Eb Hb]].
    pose proof (@StronglySorted_split _ _ _ 5 _ _ SS Ha Hb) as R.
    assert (KS : Forall (fun tf => Runner.st_mtime (snd tf) = Some (fst tf)) S).
    { eapply Permutation_Forall; [symmetry; exact PS | exact Hkeys]. }
    rewrite Forall_forall in KS.
    assert (Ia : In a S)
      by (rewrite <- (firstn_skipn 5 S); apply in_app_iff; now left).
    assert (Ib : In b S)
      by (rewrite <- (firstn_skipn 5 S); apply in_app_iff; now right).
    pose proof (KS a Ia) as Ka. pose proof (KS b Ib) as Kb.
    rewrite Ea, Htk in Ka. rewrite Eb, Htg in Kb.
    injection Ka as ->. injection Kb as ->. exact R.
  - rewrite fold_unlink. apply NoDup_filter. now apply NoDup_map_inv in ND.
  - apply (NoDup_app_remove_r _ (skipn 5 sorted)). rewrite <- Esplit.
    eapply Permutation_NoDup; [symmetry; exact Psorted|].
    now apply NoDup_map_inv in ND.
Qed.


(** X10. With more than five files whose time stamps can all be read, the
    function returns, and of the files it found: five stay that it never
    tries to remove, each of them at least as new as every file outside
    the five; a file outside the five stays only if [unlink] failed on it;
    and nothing is added. *)
Theorem cleanup_keeps_five_newest
    (files : list (Runner.result_file mtime))
    (keyed : list (mtime * Runner.result_file mtime)) :
  NoDup (map (@Runner.file_name mtime) files) ->
  Runner.MAX_TEST_RESULT_FILES < length files ->
  Runner.stat_all files = Ret keyed ->
  exists files',
    Runner.cleanup_old_test_result_files mtime_lt (Runner.Dir files)
    = Ret (Runner.Dir files')
    /\ length (Runner.files_to_keep mtime_lt keyed) = 5
    /\ incl (Runner.files_to_keep mtime_lt keyed) files'
    /\ incl files' files
    /\ (forall g, In g files' ->
                  In g (Runner.files_to_keep mtime_lt keyed)
                  \/ Runner.unlink_ok g = false)
    /\ (forall k g tk tg,
           In k (Runner.files_to_keep mtime_lt keyed) ->
           In g files -> ~ In g (Runner.files_to_keep mtime_lt keyed) ->
           Runner.st_mtime k = Some tk -> Runner.st_mtime g = Some tg ->
           mtime_lt tk tg = false).
Proof.
  intros ND Hlen Hstat.
  destruct (@cleanup_outcome files keyed ND Hlen Hstat)
    as [files' [C [L [I1 [I2 [U [O _]]]]]]].
  exists files'. repeat split; assumption.
Qed.

(** X11. With more than five files, when every time stamp can be read and
    every [unlink] works, exactly the five files that were kept are left,
    and a second call changes nothing. *)
Theorem cleanup_leaves_five_files
    (files : list (Runner.result_file mtime))
    (keyed : list (mtime * Runner.result_file mtime)) :
  NoDup (map (@Runner.file_name mtime) files) ->
  Runner.MAX_TEST_RESULT_FILES < length files ->
  Runner.stat_all files = Ret keyed ->
  (forall f, In f files -> Runner.unlink_ok f = true) ->
  exists files',
    Runner.cleanup_old_test_result_files mtime_lt (Runner.Dir files)
    = Ret (Runner.Dir files')
    /\ Permutation files' (Runner.files_to_keep mtime_lt keyed)
    /\ length files' = Runner.MAX_TEST_RESULT_FILES
    /\ Runner.cleanup_old_test_result_files mtime_lt (Runner.Dir files')
       = Ret (Runner.Dir files').
Proof.
  intros ND Hlen Hstat Hok.
  destruct (@cleanup_outcome files keyed ND Hlen Hstat)
    as [files' [C [L [I1 [I2 [U [_ [N1 N2]]]]]]]].
  assert (P : Permutation files' (Runner.files_to_keep mtime_lt keyed)).
  { apply NoDup_Permutation; [exact N1 | exact N2|].
    intros g. split; [|apply I1].
    intros Hg. destruct (U g Hg) as [K|K]; [exact K|].
    rewrite (Hok g (I2 g Hg)) in K. discriminate. }
  assert (L' : length files' = Runner.MAX_TEST_RESULT_FILES)
    by (rewrite (Permutation_length P); exact L).
  exists files'. split; [exact C|]. split; [exact P|]. split; [exact L'|].
  unfold Runner.cleanup_old_test_result_files. rewrite L'.
  reflexivity.
Qed.

End CleanupFacts.

Lemma N_ltb_asym (a b : N) : (a <? b)%N = true -> (b <? a)%N = false.
Proof. intros H. apply N.ltb_lt in H. apply N.ltb_ge. lia. Qed.

Lemma N_ltb_negtrans (a b c : N) :
  (a <? c)%N = true -> (a <? b)%N = true \/ (b <? c)%N = true.
Proof.
  intros H. apply N.ltb_lt in H.
  destruct (a <? b)%N eqn:E; [now left | right].
  apply N.ltb_ge in E. apply N.ltb_lt. lia.
Qed.

Lemma six_results_names :
  NoDup (map (@Runner.file_name N) six_results).
Proof.
  vm_compute.
  repeat (constructor; [intros K; simpl in K; intuition discriminate|]).
  constructor.
Qed.

Lemma cleanup_keeps_five_newest_witness :
  exists keyed files',
    Runner.stat_all six_results = Ret keyed
    /\ Runner.cleanup_old_test_result_files N.ltb (Runner.Dir six_results)
       = Ret (Runner.Dir files')
    /\ map (@Runner.file_name N) (Runner.files_to_keep N.ltb keyed)
       = [pystr "test_results_2.json"; pystr "test_results_5.json";
          pystr "test_results_4.json"; pystr "test_results_3.json";
          pystr "test_results_6.json"]
    /\ incl (Runner.files_to_keep N.ltb keyed) files'
    /\ incl files' six_results
    /\ (forall g, In g files' ->
                  In g (Runner.files_to_keep N.ltb keyed)
                  \/ Runner.unlink_ok g = false).
Proof.
  pose (keyed := parsed
                   (match Runner.stat_all six_results with
                    | Ret k => Ret (true, k)
                    | Raise e => Raise e
                    end) []).
  assert (H : Runner.stat_all six_results = Ret keyed)
    by (vm_compute; reflexivity).
  destruct (@cleanup_keeps_five_newest N N.ltb N_ltb_asym N_ltb_negtrans
              six_results keyed six_results_names
              ltac:(vm_compute; lia) H)
    as [files' [C [_ [I1 [I2 [U _]]]]]].
  exists keyed, files'.
  split; [exact H|]. split; [exact C|]. split; [vm_compute; reflexivity|].
  split; [exact I1|]. split; [exact I2 | exact U].
Defined.

Lemma cleanup_leaves_five_files_witness :
  exists keyed files',
    Runner.stat_all six_results = Ret keyed
    /\ Runner.cleanup_old_test_result_files N.ltb (Runner.Dir six_results)
       = Ret (Runner.Dir files')
    /\ Permutation files' (Runner.files_to_keep N.ltb keyed)
    /\ length files' = 5
    /\ Runner.cleanup_old_test_result_files N.ltb (Runner.Dir files')
       = Ret (Runner.Dir files').
Proof.
  pose (keyed := parsed
                   (match Runner.stat_all six_results with
                    | Ret k => Ret (true, k)
                    | Raise e => Raise e
                    end) []).
  assert (H : Runner.stat_all six_results = Ret keyed)
    by (vm_compute; reflexivity).
  assert (Hok : forall f, In f six_results -> Runner.unlink_ok f = true).
  { intros f Hf. simpl in Hf.
    repeat (destruct Hf as [<-|Hf]; [reflexivity|]). destruct Hf. }
  destruct (@cleanup_leaves_five_files N N.ltb N_ltb_asym N_ltb_negtrans
              six_results keyed six_results_names
              ltac:(vm_compute; lia) H Hok)
    as [files' C].
  exists keyed, files'. split; [exact H | exact C].
Defined.
